(** * KaiSurfBeta: a shallow embedding of the browser's stores and their laws

    The development follows the TypeScript sources:
    - [useDatabase]        bookmarks and history over an embedded SQL engine,
    - [useSettings]        the settings object kept under one storage key,
    - [useModuleFeedback]  the activity log and the module feedback log,
    - [HistoryScreen]      the date bucketing of the history list,
    - [BrowserScreen]      the URL bar.

    Effects are written in a small state-and-exception monad.  What the
    program cannot decide itself (the clock, the random draw, whether a
    driver call is rejected, the engine's case folding and reading of dates,
    the device's time zone) is an explicit input. *)

From Stdlib Require Import ZArith QArith String Ascii List Lia.
From stdpp Require Import base decidable option list sorting gmap strings pretty.

Local Open Scope string_scope.
Local Open Scope Z_scope.

(** ** Promises that resolve or reject, over a mutable world *)

Module Async.

(** The outcome of an awaited call: a value, or [throw new Error(message)]. *)
Inductive Result (A : Type) : Type :=
  | Ok (a : A)
  | Throw (message : string).
Arguments Ok {A} a.
Arguments Throw {A} message.

(** A computation over a world [W].  A throw keeps the writes made before it:
    nothing in the sources rolls anything back. *)
Definition M (W A : Type) : Type := W -> Result A * W.

Definition ret {W A} (a : A) : M W A := fun w => (Ok a, w).

Definition bind {W A B} (m : M W A) (k : A -> M W B) : M W B :=
  fun w =>
    match m w with
    | (Ok a, w') => k a w'
    | (Throw e, w') => (Throw e, w')
    end.

Definition throw {W A} (message : string) : M W A := fun w => (Throw message, w).

(** [try { m } catch (error) { h error }] *)
Definition try_catch {W A} (m : M W A) (h : string -> M W A) : M W A :=
  fun w =>
    match m w with
    | (Ok a, w') => (Ok a, w')
    | (Throw e, w') => h e w'
    end.

(** [try { m } finally { f }], for an [f] that does not throw. *)
Definition finally {W A} (m : M W A) (f : W -> W) : M W A :=
  fun w => let (r, w') := m w in (r, f w').

Definition get {W} : M W W := fun w => (Ok w, w).
Definition modify {W} (f : W -> W) : M W unit := fun w => (Ok tt, f w).

Definition result {W A} (m : M W A) (w : W) : Result A := fst (m w).
Definition after {W A} (m : M W A) (w : W) : W := snd (m w).

End Async.
Export Async.

Declare Scope async_scope.
Delimit Scope async_scope with async.
Notation "'let!' x ':=' m 'in' k" := (bind m (fun x => k))
  (at level 10, x name, m at level 100, k at level 200) : async_scope.
Notation "m ';;' k" := (bind m (fun _ => k))
  (at level 100, k at level 200, right associativity) : async_scope.

(** ** ORDER BY ... DESC

    The engine's sort, as far as the program can observe it: rows come out
    by decreasing key, and rows with equal keys keep the order of the table
    (increasing rowid), which is what both a scan of an index on the key and
    a sort of a table scan deliver. *)

Section OrderBy.
Context {A : Type} (key : A -> Z).

Fixpoint insert_desc (r : A) (l : list A) : list A :=
  match l with
  | [] => [r]
  | x :: l' => if key x <=? key r then r :: x :: l' else x :: insert_desc r l'
  end.

Fixpoint order_by_desc (rows : list A) : list A :=
  match rows with
  | [] => []
  | r :: rows' => insert_desc r (order_by_desc rows')
  end.
End OrderBy.

(** ** useDatabase *)

Module BookmarkItem.
Record t : Type := mk { id : Z; url : string; title : string; created_at : Z }.
#[global] Instance eq_dec : EqDecision t.
Proof. solve_decision. Defined.
End BookmarkItem.

(** [visited_at] is the instant the column's text denotes in UTC, in
    milliseconds since the epoch: the database only orders by it.  The
    history screen reads the text through [new Date(item.visited_at)], which
    is the engine's reading and not always that instant ([Js.parseDate]). *)
Module HistoryItem.
Record t : Type := mk { id : Z; url : string; title : string; visited_at : Z }.
#[global] Instance eq_dec : EqDecision t.
Proof. solve_decision. Defined.
End HistoryItem.

Module Database.

(** The file [browser.db].  Tables hold their rows in rowid order.  The
    [DATETIME] columns are kept as the instant they denote (a number on the
    engine's clock): the text form [YYYY-MM-DD HH:MM:SS] orders the same way.
    [*_seq] is the engine's AUTOINCREMENT counter, the largest rowid the table
    ever held. *)
Record SQLiteDatabase : Type := mkFile {
  bookmarks : list BookmarkItem.t;
  bookmarks_seq : Z;
  history : list HistoryItem.t;
  history_seq : Z;
}.

(** The hook's world: [db] is the state cell ([false] while it is [null]),
    [faults] says for each coming driver call whether it rejects ([Some
    message]) or goes through ([None]; so does a call past the end of the
    list), and [console] collects what [console.error] printed. *)
Record World : Type := mkWorld {
  db : bool;
  file : SQLiteDatabase;
  faults : list (option string);
  console : list (string * string);
}.

Definition set_file (f : SQLiteDatabase) (w : World) : World :=
  {| db := db w; file := f; faults := faults w; console := console w |}.
Definition set_faults (fs : list (option string)) (w : World) : World :=
  {| db := db w; file := file w; faults := fs; console := console w |}.
Definition set_db (b : bool) (w : World) : World :=
  {| db := b; file := file w; faults := faults w; console := console w |}.

(** [console.error(label, error)] *)
Definition console_error (label error : string) : M World unit :=
  modify (fun w => {| db := db w; file := file w; faults := faults w;
                      console := console w ++ [(label, error)] |}).

(** One call into the driver: it rejects if the fault plan says so, and
    otherwise runs the statement against the file. *)
Definition driver {A} (stmt : SQLiteDatabase -> A * SQLiteDatabase) : M World A :=
  fun w =>
    match faults w with
    | Some message :: fs => (Throw message, set_faults fs w)
    | None :: fs =>
        let (a, f) := stmt (file w) in (Ok a, set_file f (set_faults fs w))
    | [] => let (a, f) := stmt (file w) in (Ok a, set_file f w)
    end.

(** [db.runAsync(sql, params)] for a statement that writes. *)
Definition runAsync (stmt : SQLiteDatabase -> SQLiteDatabase) : M World unit :=
  driver (fun f => (tt, stmt f)).
(** [db.getFirstAsync] and [db.getAllAsync] for a statement that reads. *)
Definition getFirstAsync {A} (query : SQLiteDatabase -> option A) : M World (option A) :=
  driver (fun f => (query f, f)).
Definition getAllAsync {A} (query : SQLiteDatabase -> list A) : M World (list A) :=
  driver (fun f => (query f, f)).

(** *** The statements *)

(** [SELECT id FROM bookmarks WHERE url = ?] *)
Definition select_bookmark_id (url : string) (f : SQLiteDatabase) : option Z :=
  BookmarkItem.id <$> head (filter (fun b => BookmarkItem.url b = url) (bookmarks f)).

(** [INSERT INTO bookmarks (url, title) VALUES (?, ?)]; the id is the next
    AUTOINCREMENT value and [created_at] defaults to CURRENT_TIMESTAMP. *)
Definition insert_bookmark (now : Z) (url title : string) (f : SQLiteDatabase)
  : SQLiteDatabase :=
  {| bookmarks := bookmarks f ++ [BookmarkItem.mk (bookmarks_seq f + 1) url title now];
     bookmarks_seq := bookmarks_seq f + 1;
     history := history f;
     history_seq := history_seq f |}.

(** [DELETE FROM bookmarks WHERE id = ?] *)
Definition delete_bookmark (id : Z) (f : SQLiteDatabase) : SQLiteDatabase :=
  {| bookmarks := filter (fun b => BookmarkItem.id b ≠ id) (bookmarks f);
     bookmarks_seq := bookmarks_seq f;
     history := history f;
     history_seq := history_seq f |}.

(** [SELECT * FROM bookmarks ORDER BY created_at DESC] *)
Definition select_bookmarks (f : SQLiteDatabase) : list BookmarkItem.t :=
  order_by_desc BookmarkItem.created_at (bookmarks f).

Definition set_history (h : list HistoryItem.t) (f : SQLiteDatabase) : SQLiteDatabase :=
  {| bookmarks := bookmarks f; bookmarks_seq := bookmarks_seq f;
     history := h; history_seq := history_seq f |}.

(** [DELETE FROM history WHERE url = ?] *)
Definition delete_history_url (url : string) (f : SQLiteDatabase) : SQLiteDatabase :=
  set_history (filter (fun r => HistoryItem.url r ≠ url) (history f)) f.

(** [INSERT INTO history (url, title) VALUES (?, ?)] *)
Definition insert_history (now : Z) (url title : string) (f : SQLiteDatabase)
  : SQLiteDatabase :=
  {| bookmarks := bookmarks f; bookmarks_seq := bookmarks_seq f;
     history := history f ++ [HistoryItem.mk (history_seq f + 1) url title now];
     history_seq := history_seq f + 1 |}.

(** [SELECT id FROM history ORDER BY visited_at DESC LIMIT 1000] *)
Definition newest_ids (f : SQLiteDatabase) : list Z :=
  HistoryItem.id <$> take 1000 (order_by_desc HistoryItem.visited_at (history f)).

(** [DELETE FROM history WHERE id NOT IN (SELECT id ... LIMIT 1000)] *)
Definition delete_beyond_limit (f : SQLiteDatabase) : SQLiteDatabase :=
  set_history (filter (fun r => HistoryItem.id r ∈ newest_ids f) (history f)) f.

(** [SELECT * FROM history ORDER BY visited_at DESC LIMIT 100] *)
Definition select_history (f : SQLiteDatabase) : list HistoryItem.t :=
  take 100 (order_by_desc HistoryItem.visited_at (history f)).

(** [DELETE FROM history WHERE id = ?] *)
Definition delete_history_id (id : Z) (f : SQLiteDatabase) : SQLiteDatabase :=
  set_history (filter (fun r => HistoryItem.id r ≠ id) (history f)) f.

(** [DELETE FROM history] *)
Definition delete_history_all (f : SQLiteDatabase) : SQLiteDatabase :=
  set_history [] f.

(** *** The hook's functions *)

Local Open Scope async_scope.

(** [openDatabaseAsync] and the [CREATE ... IF NOT EXISTS] script leave the
    rows of an existing file alone; then [setDb(database)]. *)
Definition initializeDatabase : M World unit :=
  try_catch
    (runAsync (fun f => f);;
     runAsync (fun f => f);;
     modify (set_db true))
    (fun error => console_error "Error initializing database:" error).

Definition not_initialized : string := "Database not initialized".
Definition already_exists : string := "Bookmark already exists".

Definition addBookmark (now : Z) (url title : string) : M World unit :=
  let! w := get in
  if negb (db w) then throw not_initialized else
  try_catch
    (let! existing := getFirstAsync (select_bookmark_id url) in
     match existing with
     | Some _ => throw already_exists
     | None => runAsync (insert_bookmark now url title)
     end)
    (fun error => console_error "Error adding bookmark:" error;; throw error).

Definition removeBookmark (id : Z) : M World unit :=
  let! w := get in
  if negb (db w) then throw not_initialized else
  try_catch
    (runAsync (delete_bookmark id))
    (fun error => console_error "Error removing bookmark:" error;; throw error).

Definition getBookmarks : M World (list BookmarkItem.t) :=
  let! w := get in
  if negb (db w) then ret [] else
  try_catch
    (getAllAsync select_bookmarks)
    (fun error => console_error "Error getting bookmarks:" error;; ret []).

Definition addToHistory (now : Z) (url title : string) : M World unit :=
  let! w := get in
  if negb (db w) then ret tt else
  try_catch
    (runAsync (delete_history_url url);;
     runAsync (insert_history now url title);;
     runAsync delete_beyond_limit)
    (fun error => console_error "Error adding to history:" error).

Definition getHistory : M World (list HistoryItem.t) :=
  let! w := get in
  if negb (db w) then ret [] else
  try_catch
    (getAllAsync select_history)
    (fun error => console_error "Error getting history:" error;; ret []).

Definition removeHistoryItem (id : Z) : M World unit :=
  let! w := get in
  if negb (db w) then throw not_initialized else
  try_catch
    (runAsync (delete_history_id id))
    (fun error => console_error "Error removing history item:" error;; throw error).

Definition clearHistory : M World unit :=
  let! w := get in
  if negb (db w) then throw not_initialized else
  try_catch
    (runAsync delete_history_all)
    (fun error => console_error "Error clearing history:" error;; throw error).

(** *** Well-formed files

    What the schema guarantees of every file the engine hands out: [id] is a
    primary key, and AUTOINCREMENT never hands out an id at or below one it
    has used. *)
Record wf_file (f : SQLiteDatabase) : Prop := {
  wf_history_ids : NoDup (HistoryItem.id <$> history f);
  wf_history_seq : Forall (fun r => HistoryItem.id r <= history_seq f) (history f);
  wf_bookmark_ids : NoDup (BookmarkItem.id <$> bookmarks f);
  wf_bookmark_seq : Forall (fun b => BookmarkItem.id b <= bookmarks_seq f) (bookmarks f);
}.

(** The file right after [CREATE TABLE IF NOT EXISTS] on a new device. *)
Definition empty_file : SQLiteDatabase :=
  {| bookmarks := []; bookmarks_seq := 0; history := []; history_seq := 0 |}.

(** An opened database with a driver that does not reject. *)
Definition opened (f : SQLiteDatabase) : World :=
  {| db := true; file := f; faults := []; console := [] |}.

End Database.

(** ** JavaScript values and strings

    A string is held as the bytes of its UTF-8 encoding.  Searching for a
    text ([includes], [startsWith], [split]) and [encodeURIComponent] work
    on these bytes as the engine works on the text: no encoding of a
    character occurs inside the encoding of another.  [trim] knows the white
    space and the line terminators of ECMAScript by their encodings.  Case
    folding is the engine's and is not computed here (see [Host]). *)

Module Js.

#[local] Unset Elimination Schemes.
(** What [JSON.parse] can return and [JSON.stringify] can print.  Numbers
    are kept to the integers, which is all this program stores. *)
Inductive Value : Type :=
  | Null
  | Bool (b : bool)
  | Num (z : Z)
  | Str (s : string)
  | Arr (items : list Value)
  | Obj (props : gmap string Value).
#[local] Set Elimination Schemes.

(** The own enumerable properties of a value, as the spread [...v] copies
    them: the properties of an object, the indices of an array or of a
    string, nothing for the rest. *)
Definition own_props (v : Value) : gmap string Value :=
  match v with
  | Obj props => props
  | Arr items => list_to_map (imap (fun i x => (pretty i, x)) items)
  | Str s =>
      list_to_map (imap (fun i c => (pretty i, Str (String c EmptyString)))
                        (list_ascii_of_string s))
  | Null | Bool _ | Num _ => ∅
  end.

(** [{ ...a, ...b }]: the properties of [b] win. *)
Definition spread (a b : gmap string Value) : gmap string Value := b ∪ a.

Definition is_upper (c : ascii) : bool :=
  (65 <=? nat_of_ascii c)%nat && (nat_of_ascii c <=? 90)%nat.

Definition lower (c : ascii) : ascii :=
  if is_upper c then ascii_of_nat (nat_of_ascii c + 32) else c.

(** [s.toLowerCase()] for a text whose letters are all within ASCII, where
    it folds [A] to [Z] and nothing else. *)
Fixpoint toLowerCaseASCII (s : string) : string :=
  match s with
  | EmptyString => EmptyString
  | String c s' => String (lower c) (toLowerCaseASCII s')
  end.

(** [s.startsWith(p)] *)
Definition startsWith (s p : string) : bool := String.prefix p s.

(** [s.includes(sub)] *)
Fixpoint includes (s sub : string) : bool :=
  String.prefix sub s ||
  match s with
  | EmptyString => false
  | String _ s' => includes s' sub
  end.

(** A string in a condition: only the empty string is falsy. *)
Definition truthy (s : string) : bool :=
  match s with EmptyString => false | String _ _ => true end.

(** The white space and line terminators that take one byte: tab, line
    feed, vertical tab, form feed, carriage return, space. *)
Definition is_space (c : ascii) : bool :=
  let n := nat_of_ascii c in ((9 <=? n)%nat && (n <=? 13)%nat) || (n =? 32)%nat.

(** The byte as a number. *)
Definition code (c : ascii) : Z := Z.of_nat (nat_of_ascii c).

(** The one that takes two bytes: U+00A0, the no-break space. *)
Definition is_space2 (a b : ascii) : bool :=
  (code a =? 194) && (code b =? 160).

(** Those that take three bytes: U+1680; U+2000 to U+200A, U+2028, U+2029
    and U+202F; U+205F; U+3000; U+FEFF. *)
Definition is_space3 (a b c : ascii) : bool :=
  let x := code a in
  let y := code b in
  let z := code c in
  ((x =? 225) && (y =? 154) && (z =? 128))
  || ((x =? 226) && (y =? 128)
      && (((128 <=? z) && (z <=? 138)) || (z =? 168) || (z =? 169) || (z =? 175)))
  || ((x =? 226) && (y =? 129) && (z =? 159))
  || ((x =? 227) && (y =? 128) && (z =? 128))
  || ((x =? 239) && (y =? 187) && (z =? 191)).

(** What follows the white space a text starts with, if it starts with
    one. *)
Definition strip (s : string) : option string :=
  match s with
  | String a r1 =>
      if is_space a then Some r1 else
      match r1 with
      | String b r2 =>
          if is_space2 a b then Some r2 else
          match r2 with
          | String c r3 => if is_space3 a b c then Some r3 else None
          | EmptyString => None
          end
      | EmptyString => None
      end
  | EmptyString => None
  end.

Fixpoint trimStart (s : string) : string :=
  match s with
  | String a r1 =>
      if is_space a then trimStart r1 else
      match r1 with
      | String b r2 =>
          if is_space2 a b then trimStart r2 else
          match r2 with
          | String c r3 => if is_space3 a b c then trimStart r3 else s
          | EmptyString => s
          end
      | EmptyString => s
      end
  | EmptyString => EmptyString
  end.

(** Nothing but white space. *)
Definition blank (s : string) : bool := negb (truthy (trimStart s)).

(** The text up to where nothing but white space follows. *)
Fixpoint trimEnd (s : string) : string :=
  match s with
  | EmptyString => EmptyString
  | String c s' => if blank s then EmptyString else String c (trimEnd s')
  end.

(** [s.trim()] *)
Definition trim (s : string) : string := trimEnd (trimStart s).

(** [s.split(sep)] for a one-character separator. *)
Fixpoint split (sep : ascii) (s : string) : list string :=
  match s with
  | EmptyString => [EmptyString]
  | String c s' =>
      if Ascii.eqb c sep then EmptyString :: split sep s'
      else match split sep s' with
           | [] => [String c EmptyString]
           | piece :: pieces => String c piece :: pieces
           end
  end.

(** [`${pieces[i]}`]: a missing element prints as [undefined]. *)
Definition interpolate (pieces : list string) (i : nat) : string :=
  default "undefined" (pieces !! i).

Definition hex_digit (n : nat) : ascii :=
  if (n <? 10)%nat then ascii_of_nat (48 + n) else ascii_of_nat (55 + n).

(** The characters [encodeURIComponent] leaves alone: letters, digits and
    [- _ . ! ~ * ' ( )]. *)
Definition unreserved (c : ascii) : bool :=
  let n := nat_of_ascii c in
  (((65 <=? n) && (n <=? 90)) || ((97 <=? n) && (n <=? 122)) || ((48 <=? n) && (n <=? 57))
   || (n =? 45) || (n =? 95) || (n =? 46) || (n =? 33) || (n =? 126) || (n =? 42)
   || (n =? 39) || (n =? 40) || (n =? 41))%nat.

Fixpoint encodeURIComponent (s : string) : string :=
  match s with
  | EmptyString => EmptyString
  | String c s' =>
      if unreserved c then String c (encodeURIComponent s')
      else let n := nat_of_ascii c in
           String "%" (String (hex_digit (n / 16)) (String (hex_digit (n mod 16))
                  (encodeURIComponent s')))
  end%nat.

(** A [Date], by the two readings the program takes of it. *)
Record Date : Type := mkDate {
  getTime : Z;            (* milliseconds since the epoch *)
  toISOString : string;   (* [YYYY-MM-DDTHH:mm:ss.sssZ] *)
}.

(** What the screens take from the engine and from the device, and what the
    text of the program does not determine: the case folding of the engine's
    Unicode tables, the rules of the device's time zone, and how the engine
    reads a date that is not written in the ISO format.  Instants are in
    milliseconds since the epoch. *)
Record Host : Type := mkHost {
  (* [s.toLowerCase()] *)
  toLowerCase : string -> string;
  (* [new Date(now.getFullYear(), now.getMonth(), now.getDate())] for the
     instant [now]: the start of the day of [now] on the device's clock; on
     a day the clock is set back it can lie more than 24 hours before [now] *)
  startOfDay : Z -> Z;
  (* [new Date(text)] for the text of a [DATETIME] column, given by the
     instant the text denotes in UTC, which is how the database writes it;
     the engine may read it in the device's zone, or not at all, which is
     [Invalid Date] and [None] here *)
  parseDate : Z -> option Z;
}.

End Js.

(** ** AsyncStorage, and the state cells of the two hooks that write to it *)

Module ActivityLog.
Record t : Type := mk {
  id : string;
  timestamp : string;
  activity_type : string;
  content : string;
  module : option string;
}.
End ActivityLog.

Module ModuleFeedback.
Inductive feedback_type : Type := SUCCESS | ERROR | WARNING | INFO.
Record t : Type := mk {
  module_name : string;
  type : feedback_type;
  message : string;
  timestamp : string;
  file_reference : option string;
}.
End ModuleFeedback.

Module Storage.
Import Js.

(** The text under a key, by what [JSON.parse] makes of it. *)
Inductive Text : Type :=
  | Serialized (v : Value)   (* [JSON.stringify(v)]; parses back to [v] *)
  | Malformed                (* a text, not empty, that [JSON.parse] rejects *)
  | Blank.                   (* the empty text *)

(** What the hooks do that the screen or the device can see, in order. *)
Inductive Event : Type :=
  | SetItem (key : string) (text : Text)
  | SetItemRejected (key : string)
  | RemoveItem (key : string)
  | SetSettings (s : gmap string Value)
  | SetLoading (b : bool)
  | SetActivityLog (log : list ActivityLog.t)
  | SetModuleFeedback (log : list ModuleFeedback.t)
  | Delay (ms : Z).

(** [storage] is the device's key-value store, [faults] the plan of its
    rejections (as for the database driver), and the four cells are the
    [useState] cells of [useSettings] and [useModuleFeedback]. *)
Record World : Type := mkWorld {
  storage : gmap string Text;
  faults : list (option string);
  console : list (string * string);
  trace : list Event;
  settings : gmap string Value;
  loading : bool;
  activityLog : list ActivityLog.t;
  moduleFeedback : list ModuleFeedback.t;
}.

Definition emit (e : Event) (w : World) : World :=
  {| storage := storage w; faults := faults w; console := console w;
     trace := trace w ++ [e];
     settings := settings w; loading := loading w;
     activityLog := activityLog w; moduleFeedback := moduleFeedback w |}.

Definition set_storage (s : gmap string Text) (w : World) : World :=
  {| storage := s; faults := faults w; console := console w; trace := trace w;
     settings := settings w; loading := loading w;
     activityLog := activityLog w; moduleFeedback := moduleFeedback w |}.

Definition set_faults (fs : list (option string)) (w : World) : World :=
  {| storage := storage w; faults := fs; console := console w; trace := trace w;
     settings := settings w; loading := loading w;
     activityLog := activityLog w; moduleFeedback := moduleFeedback w |}.

Definition console_error (label error : string) : M World unit :=
  modify (fun w =>
    {| storage := storage w; faults := faults w;
       console := console w ++ [(label, error)]; trace := trace w;
       settings := settings w; loading := loading w;
       activityLog := activityLog w; moduleFeedback := moduleFeedback w |}).

(** The state setters. *)
Definition setSettings (s : gmap string Value) : M World unit :=
  modify (fun w => emit (SetSettings s)
    {| storage := storage w; faults := faults w; console := console w;
       trace := trace w; settings := s; loading := loading w;
       activityLog := activityLog w; moduleFeedback := moduleFeedback w |}).

Definition setLoading (b : bool) (w : World) : World :=
  emit (SetLoading b)
    {| storage := storage w; faults := faults w; console := console w;
       trace := trace w; settings := settings w; loading := b;
       activityLog := activityLog w; moduleFeedback := moduleFeedback w |}.

Definition setActivityLog (log : list ActivityLog.t) : M World unit :=
  modify (fun w => emit (SetActivityLog log)
    {| storage := storage w; faults := faults w; console := console w;
       trace := trace w; settings := settings w; loading := loading w;
       activityLog := log; moduleFeedback := moduleFeedback w |}).

Definition setModuleFeedback (log : list ModuleFeedback.t) : M World unit :=
  modify (fun w => emit (SetModuleFeedback log)
    {| storage := storage w; faults := faults w; console := console w;
       trace := trace w; settings := settings w; loading := loading w;
       activityLog := activityLog w; moduleFeedback := log |}).

(** [AsyncStorage.getItem(key)]: the text, or [null]. *)
Definition getItem (key : string) : M World (option Text) :=
  fun w =>
    match faults w with
    | Some message :: fs => (Throw message, set_faults fs w)
    | None :: fs => (Ok (storage w !! key), set_faults fs w)
    | [] => (Ok (storage w !! key), w)
    end.

(** [AsyncStorage.setItem(key, text)] *)
Definition setItem (key : string) (text : Text) : M World unit :=
  fun w =>
    match faults w with
    | Some message :: fs => (Throw message, emit (SetItemRejected key) (set_faults fs w))
    | None :: fs =>
        (Ok tt, emit (SetItem key text) (set_storage (<[key := text]> (storage w))
                                                     (set_faults fs w)))
    | [] => (Ok tt, emit (SetItem key text) (set_storage (<[key := text]> (storage w)) w))
    end.

(** [AsyncStorage.removeItem(key)] *)
Definition removeItem (key : string) : M World unit :=
  fun w =>
    match faults w with
    | Some message :: fs => (Throw message, set_faults fs w)
    | None :: fs =>
        (Ok tt, emit (RemoveItem key) (set_storage (delete key (storage w))
                                                   (set_faults fs w)))
    | [] => (Ok tt, emit (RemoveItem key) (set_storage (delete key (storage w)) w))
    end.

(** [await new Promise(resolve => setTimeout(resolve, ms))] *)
Definition delay (ms : Z) : M World unit := modify (emit (Delay ms)).

(** [JSON.parse(text)] *)
Definition JSON_parse (text : Text) : M World Value :=
  match text with
  | Serialized v => ret v
  | Malformed | Blank => throw "SyntaxError"
  end.

(** [if (text)] on what [getItem] returned. *)
Definition present (item : option Text) : option Text :=
  match item with
  | Some Blank | None => None
  | Some text => Some text
  end.

End Storage.

(** ** useSettings *)

Module Settings.
Import Js Storage.
Local Open Scope async_scope.

Definition DEFAULT_SETTINGS : gmap string Value :=
  list_to_map
    [("homepage", Str "https://www.google.com");
     ("searchEngine", Str "Google");
     ("privateBrowsing", Bool false);
     ("blockPopups", Bool true);
     ("clearDataOnExit", Bool false);
     ("darkMode", Bool false);
     ("showStatusBar", Bool true);
     ("javascriptEnabled", Bool true)].

Definition SETTINGS_KEY : string := "@koralai_settings".

Definition save_failed : string := "Failed to save settings".

Definition saveSettingsToStorage (newSettings : gmap string Value) : M World unit :=
  try_catch
    (setItem SETTINGS_KEY (Serialized (Obj newSettings)))
    (fun error => console_error "Error saving settings:" error;; throw save_failed).

Definition loadSettings : M World unit :=
  finally
    (try_catch
       (let! storedSettings := getItem SETTINGS_KEY in
        match present storedSettings with
        | Some text =>
            let! parsed := JSON_parse text in
            setSettings (spread DEFAULT_SETTINGS (own_props parsed))
        | None => saveSettingsToStorage DEFAULT_SETTINGS
        end)
       (fun error =>
          console_error "Error loading settings:" error;; setSettings DEFAULT_SETTINGS))
    (setLoading false).

(** [settings] is the value of the state cell that the closure captured at
    the render it was made in. *)
Definition updateSettings (settings newSettings : gmap string Value) : M World unit :=
  try_catch
    (let updatedSettings := spread settings newSettings in
     saveSettingsToStorage updatedSettings;;
     setSettings updatedSettings)
    (fun error => console_error "Error updating settings:" error;; throw error).

Definition resetSettings : M World unit :=
  try_catch
    (saveSettingsToStorage DEFAULT_SETTINGS;; setSettings DEFAULT_SETTINGS)
    (fun error => console_error "Error resetting settings:" error;; throw error).

Definition getSetting (settings : gmap string Value) (key : string) : option Value :=
  settings !! key.

(** The hook at its first render, over a device with the given storage. *)
Definition mounted (stored : gmap string Text) (fs : list (option string)) : World :=
  {| storage := stored; faults := fs; console := []; trace := [];
     settings := DEFAULT_SETTINGS; loading := true;
     activityLog := []; moduleFeedback := [] |}.

End Settings.

(** ** useModuleFeedback *)

Module Feedback.
Import Js Storage.
Local Open Scope async_scope.

Definition ACTIVITY_LOG_KEY : string := "@koralai_activity_log".
Definition MODULE_FEEDBACK_KEY : string := "@koralai_module_feedback".

(** [JSON.stringify] leaves out a property whose value is [undefined]. *)
Definition optional (key : string) (value : option string) : list (string * Value) :=
  match value with Some s => [(key, Str s)] | None => [] end.

Definition activity_json (a : ActivityLog.t) : Value :=
  Obj (list_to_map
         ([("id", Str (ActivityLog.id a));
           ("timestamp", Str (ActivityLog.timestamp a));
           ("activity_type", Str (ActivityLog.activity_type a));
           ("content", Str (ActivityLog.content a))]
          ++ optional "module" (ActivityLog.module a))).

Definition feedback_type_json (t : ModuleFeedback.feedback_type) : Value :=
  match t with
  | ModuleFeedback.SUCCESS => Str "SUCCESS"
  | ModuleFeedback.ERROR => Str "ERROR"
  | ModuleFeedback.WARNING => Str "WARNING"
  | ModuleFeedback.INFO => Str "INFO"
  end.

Definition feedback_json (f : ModuleFeedback.t) : Value :=
  Obj (list_to_map
         ([("module_name", Str (ModuleFeedback.module_name f));
           ("feedback_type", feedback_type_json (ModuleFeedback.type f));
           ("message", Str (ModuleFeedback.message f));
           ("timestamp", Str (ModuleFeedback.timestamp f))]
          ++ optional "file_reference" (ModuleFeedback.file_reference f))).

(** In the functions below, [activityLog] and [moduleFeedback] are the values
    of the state cells that the closure captured at the render it was made
    in; [now] is the clock at the call. *)

Definition logActivity (activityLog : list ActivityLog.t) (now : Date)
    (activityType content : string) (module : option string) : M World unit :=
  try_catch
    (let newActivity :=
       ActivityLog.mk (pretty (getTime now)) (toISOString now) activityType content module in
     let updatedLog := take 1000 (newActivity :: activityLog) in
     setActivityLog updatedLog;;
     setItem ACTIVITY_LOG_KEY (Serialized (Arr (activity_json <$> updatedLog))))
    (fun error => console_error "Error logging activity:" error).

Definition addModuleFeedback (moduleFeedback : list ModuleFeedback.t) (now : Date)
    (moduleName : string) (feedbackType : ModuleFeedback.feedback_type)
    (message : string) (fileReference : option string) : M World unit :=
  try_catch
    (let newFeedback :=
       ModuleFeedback.mk moduleName feedbackType message (toISOString now) fileReference in
     let updatedFeedback := take 500 (newFeedback :: moduleFeedback) in
     setModuleFeedback updatedFeedback;;
     setItem MODULE_FEEDBACK_KEY (Serialized (Arr (feedback_json <$> updatedFeedback))))
    (fun error => console_error "Error adding module feedback:" error).

Definition getModuleFeedback (moduleFeedback : list ModuleFeedback.t)
    (moduleName : option string) : list ModuleFeedback.t :=
  match moduleName with
  | Some name =>
      if truthy name
      then filter (fun feedback => ModuleFeedback.module_name feedback = name) moduleFeedback
      else moduleFeedback
  | None => moduleFeedback
  end.

Definition getActivityLog (activityLog : list ActivityLog.t)
    (activityType : option string) : list ActivityLog.t :=
  match activityType with
  | Some type =>
      if truthy type
      then filter (fun activity => ActivityLog.activity_type activity = type) activityLog
      else activityLog
  | None => activityLog
  end.

Definition clearActivityLog : M World unit :=
  try_catch
    (setActivityLog [];; removeItem ACTIVITY_LOG_KEY)
    (fun error => console_error "Error clearing activity log:" error).

Definition clearModuleFeedback : M World unit :=
  try_catch
    (setModuleFeedback [];; removeItem MODULE_FEEDBACK_KEY)
    (fun error => console_error "Error clearing module feedback:" error).

(** What [simulateKAiSurfLogin] resolves to: [{ success: true, username }] or
    [{ success: false, error }]. *)
Inductive LoginResult : Type :=
  | LoginSuccess (username : string)
  | LoginFailure (error : string).

(** [Math.random() > 0.3] *)
Definition succeeds (random : Q) : bool := negb (Qle_bool random (3 # 10)).

Definition dailyUsername (now : Date) (roamingId : string) : string :=
  interpolate (split " " roamingId) 0 +:+ "-" +:+
  interpolate (split "T" (toISOString now)) 0 +:+ "-" +:+
  interpolate (split " " roamingId) 1.

(** [before] is the clock when the call starts, [later] the clock after the
    delay, and [random] what [Math.random()] returns.  The function holds on
    to the [logActivity] and [addModuleFeedback] of the render it was made
    in, and with them to that render's [activityLog] and [moduleFeedback],
    for all its calls. *)
Definition simulateKAiSurfLogin (activityLog : list ActivityLog.t)
    (moduleFeedback : list ModuleFeedback.t) (before later : Date) (random : Q)
    (roamingId : string) : M World LoginResult :=
  try_catch
    (logActivity activityLog before "KAISURF_LOGIN_ATTEMPT"
       ("Login attempt with roaming ID: " +:+ roamingId) (Some "KAiSurf");;
     delay 1000;;
     if succeeds random then
       let username := dailyUsername later roamingId in
       logActivity activityLog later "KAISURF_LOGIN_SUCCESS"
         ("Successful login with username: " +:+ username) (Some "KAiSurf");;
       addModuleFeedback moduleFeedback later "KAiSurf" ModuleFeedback.SUCCESS
         ("Login successful. Daily username: " +:+ username) None;;
       ret (LoginSuccess username)
     else
       logActivity activityLog later "KAISURF_LOGIN_FAILURE"
         "Login failed - invalid credentials" (Some "KAiSurf");;
       addModuleFeedback moduleFeedback later "KAiSurf" ModuleFeedback.ERROR
         "Login failed. Please check your roaming ID." None;;
       ret (LoginFailure "Invalid credentials"))
    (fun error =>
       logActivity activityLog later "KAISURF_LOGIN_ERROR"
         ("Login error: " +:+ error) (Some "KAiSurf");;
       addModuleFeedback moduleFeedback later "KAiSurf" ModuleFeedback.ERROR
         ("Login system error: " +:+ error) None;;
       ret (LoginFailure "System error")).

(** How many times a stretch of the trace sets each log. *)
Definition sets_activity (e : Event) : bool :=
  match e with SetActivityLog _ => true | _ => false end.
Definition sets_feedback (e : Event) : bool :=
  match e with SetModuleFeedback _ => true | _ => false end.
Definition activity_records (events : list Event) : nat :=
  length (filter (fun e => sets_activity e) events).
Definition feedback_records (events : list Event) : nat :=
  length (filter (fun e => sets_feedback e) events).

End Feedback.

(** ** HistoryScreen *)

Module HistoryScreen.
Import Js.

Record HistorySection : Type := mkSection { title : string; data : list HistoryItem.t }.

Definition DAY : Z := 24 * 60 * 60 * 1000.

(** [new Date(item.visited_at)] *)
Definition visitDate (host : Host) (item : HistoryItem.t) : option Z :=
  parseDate host (HistoryItem.visited_at item).

(** [visitDate >= bound]: a comparison with an invalid date is false. *)
Definition at_or_after (visitDate : option Z) (bound : Z) : bool :=
  match visitDate with
  | Some instant => bound <=? instant
  | None => false
  end.

(** The filter's predicate. *)
Definition matches (host : Host) (searchQuery : string) (item : HistoryItem.t) : bool :=
  includes (toLowerCase host (HistoryItem.title item)) (toLowerCase host searchQuery)
  || includes (toLowerCase host (HistoryItem.url item)) (toLowerCase host searchQuery).

(** The four arrays the loop pushes to. *)
Record Items : Type := mkItems {
  todayItems : list HistoryItem.t;
  yesterdayItems : list HistoryItem.t;
  thisWeekItems : list HistoryItem.t;
  olderItems : list HistoryItem.t;
}.

(** The body of the [forEach]. *)
Definition push (host : Host) (today yesterday weekAgo : Z) (items : Items)
    (item : HistoryItem.t) : Items :=
  let visitDate := visitDate host item in
  if at_or_after visitDate today then
    {| todayItems := todayItems items ++ [item]; yesterdayItems := yesterdayItems items;
       thisWeekItems := thisWeekItems items; olderItems := olderItems items |}
  else if at_or_after visitDate yesterday then
    {| todayItems := todayItems items; yesterdayItems := yesterdayItems items ++ [item];
       thisWeekItems := thisWeekItems items; olderItems := olderItems items |}
  else if at_or_after visitDate weekAgo then
    {| todayItems := todayItems items; yesterdayItems := yesterdayItems items;
       thisWeekItems := thisWeekItems items ++ [item]; olderItems := olderItems items |}
  else
    {| todayItems := todayItems items; yesterdayItems := yesterdayItems items;
       thisWeekItems := thisWeekItems items; olderItems := olderItems items ++ [item] |}.

(** [if (items.length > 0) newSections.push({ title, data: items })] *)
Definition section (name : string) (items : list HistoryItem.t) : list HistorySection :=
  if (0 <? length items)%nat then [mkSection name items] else [].

(** The sections [organizeHistory] hands to [setSections], from the screen's
    [history] and [searchQuery], at the instant [now] of [new Date()]. *)
Definition organizeHistory (host : Host) (now : Z) (history : list HistoryItem.t)
    (searchQuery : string) : list HistorySection :=
  let filteredHistory :=
    if truthy (trim searchQuery)
    then filter (fun item => matches host searchQuery item) history
    else history in
  let today := startOfDay host now in
  let yesterday := today - 24 * 60 * 60 * 1000 in
  let weekAgo := today - 7 * 24 * 60 * 60 * 1000 in
  let items :=
    foldl (push host today yesterday weekAgo) (mkItems [] [] [] []) filteredHistory in
  section "Today" (todayItems items) ++
  section "Yesterday" (yesterdayItems items) ++
  section "This Week" (thisWeekItems items) ++
  section "Older" (olderItems items).

End HistoryScreen.

(** ** BrowserScreen *)

Module BrowserScreen.
Import Js.

(** The part of the screen the URL bar touches: the two state cells, the
    scripts injected into the web view, and the calls to [logActivity]. *)
Record Screen : Type := mkScreen {
  currentUrl : string;
  urlInput : string;
  injected : list string;
  logged : list (string * string);
}.

(** [url.match(/^https?:\/\//)] *)
Definition has_scheme (url : string) : bool :=
  startsWith url "http://" || startsWith url "https://".

(** The URL [handleUrlSubmit] settles on, or [None] where it returns early. *)
Definition target (urlInput : string) : option string :=
  let url := trim urlInput in
  if negb (truthy url) then None else
  if negb (has_scheme url) then
    if includes url "." && negb (includes url " ")
    then Some ("https://" +:+ url)
    else Some ("https://www.google.com/search?q=" +:+ encodeURIComponent url)
  else Some url.

Definition handleUrlSubmit (s : Screen) : Screen :=
  match target (urlInput s) with
  | None => s
  | Some url =>
      {| currentUrl := url;
         urlInput := urlInput s;
         injected := injected s ++ ["window.location.href = '" +:+ url +:+ "';"];
         logged := logged s ++ [("NAVIGATION", "User navigated to: " +:+ url)] |}
  end.

End BrowserScreen.

(** ** The terms the laws are stated in, and the worlds they are tried on *)

Section OrderTerms.
Context {A : Type} (key : A -> Z).

(** [a] may come before [b] in the output of [order_by_desc]. *)
Definition desc (a b : A) : Prop := key b <= key a.

End OrderTerms.

Section DatabaseTerms.
Import Database.

(** The three statements of [addToHistory], on the file. *)
Definition visit (now : Z) (u t : string) (f : SQLiteDatabase) : SQLiteDatabase :=
  delete_beyond_limit (insert_history now u t (delete_history_url u f)).

(** The row a visit inserts. *)
Definition visited (now : Z) (u t : string) (f : SQLiteDatabase) : HistoryItem.t :=
  HistoryItem.mk (history_seq f + 1) u t now.

(** The driver goes through with its next call. *)
Definition answers (w : World) : Prop :=
  match faults w with Some _ :: _ => False | _ => True end.

(** A computation keeps a property of the file, however it ends. *)
Definition keeps (I : SQLiteDatabase → Prop) {A} (m : M World A) : Prop :=
  ∀ w, I (file w) → I (file (after m w)).

(** A store with two rows, one of them an earlier visit to the page. *)
Definition two_rows : SQLiteDatabase :=
  {| bookmarks := []; bookmarks_seq := 0;
     history := [HistoryItem.mk 1 "https://example.com" "Example" 100;
                 HistoryItem.mk 2 "https://example.org" "Other" 200];
     history_seq := 2 |}.

(** A store at the cap: a thousand pages, visited one per tick. *)
Definition page (n : nat) : HistoryItem.t :=
  HistoryItem.mk (Z.of_nat n + 1) ("https://example.com/" +:+ pretty n) "Page" (Z.of_nat n).

Definition full_store : SQLiteDatabase :=
  {| bookmarks := []; bookmarks_seq := 0;
     history := page <$> seq 0 1000; history_seq := 1000 |}.

(** A store at the cap whose thousand pages were all visited within one
    second of the engine's clock. *)
Definition same_second : SQLiteDatabase :=
  {| bookmarks := []; bookmarks_seq := 0;
     history := (fun n => HistoryItem.mk (Z.of_nat n + 1)
                            ("https://example.com/" +:+ pretty n) "Page" 5000)
                <$> seq 0 1000;
     history_seq := 1000 |}.

(** An opened database whose driver follows the plan [fs]. *)
Definition opened_with (fs : list (option string)) (f : SQLiteDatabase) : World :=
  {| db := true; file := f; faults := fs; console := [] |}.

End DatabaseTerms.

Section StorageTerms.
Import Js Storage Settings Feedback.

(** What a call added to the trace. *)
Definition since (w w' : World) : list Event := drop (length (trace w)) (trace w').

(** [p] happens, and [q] happens later. *)
Fixpoint happens_before (p q : Event → bool) (events : list Event) : bool :=
  match events with
  | [] => false
  | e :: events' => (p e && existsb q events') || happens_before p q events'
  end.

Definition writes (key : string) (e : Event) : bool :=
  match e with SetItem k _ => String.eqb k key | _ => false end.

Definition sets_settings (e : Event) : bool :=
  match e with SetSettings _ => true | _ => false end.

Definition storage_event (e : Event) : bool :=
  match e with
  | SetItem _ _ | SetItemRejected _ | RemoveItem _ => true
  | _ => false
  end.

(** The device goes through with its next call. *)
Definition device_answers (w : World) : Prop :=
  match faults w with Some _ :: _ => False | _ => True end.

(** The stored settings of an older version: one key the defaults know,
    one they do not. *)
Definition legacy_blob : Value :=
  Obj (list_to_map [("homepage", Str "https://example.com"); ("legacyKey", Bool true)]).

Definition legacy_device : World :=
  mounted {[ SETTINGS_KEY := Serialized legacy_blob ]} [].

(** A session that has logged one page load. *)
Definition one_entry : ActivityLog.t :=
  ActivityLog.mk "1700000000000" "2023-11-14T22:13:20.000Z" "PAGE_LOAD"
                 "Page loaded: Example" None.

Definition session (fs : list (option string)) : World :=
  {| storage := {[ ACTIVITY_LOG_KEY := Serialized (Arr [activity_json one_entry]) ]};
     faults := fs; console := []; trace := [];
     settings := DEFAULT_SETTINGS; loading := false;
     activityLog := [one_entry]; moduleFeedback := [] |}.

Definition tick : Date := mkDate 1700000060000 "2023-11-14T22:14:20.000Z".

Definition tock : Date := mkDate 1700000061000 "2023-11-14T22:14:21.000Z".

(** The three entries a login leaves behind. *)
Definition attempt_entry (before : Date) (roamingId : string) : ActivityLog.t :=
  ActivityLog.mk (pretty (getTime before)) (toISOString before) "KAISURF_LOGIN_ATTEMPT"
    ("Login attempt with roaming ID: " +:+ roamingId) (Some "KAiSurf").

Definition outcome_entry (later : Date) (random : Q) (roamingId : string)
  : ActivityLog.t :=
  if succeeds random
  then ActivityLog.mk (pretty (getTime later)) (toISOString later) "KAISURF_LOGIN_SUCCESS"
         ("Successful login with username: " +:+ dailyUsername later roamingId)
         (Some "KAiSurf")
  else ActivityLog.mk (pretty (getTime later)) (toISOString later) "KAISURF_LOGIN_FAILURE"
         "Login failed - invalid credentials" (Some "KAiSurf").

Definition outcome_feedback (later : Date) (random : Q) (roamingId : string)
  : ModuleFeedback.t :=
  if succeeds random
  then ModuleFeedback.mk "KAiSurf" ModuleFeedback.SUCCESS
         ("Login successful. Daily username: " +:+ dailyUsername later roamingId)
         (toISOString later) None
  else ModuleFeedback.mk "KAiSurf" ModuleFeedback.ERROR
         "Login failed. Please check your roaming ID." (toISOString later) None.

End StorageTerms.

Section UrlBarTerms.
Import Js BrowserScreen.

(** U+00A0, the no-break space, which [trim] removes. *)
Definition nbsp : string := String "194"%char (String "160"%char EmptyString).

(** The rule of the URL bar in the words of the specification, for a text
    [input] and the URL [url] the screen navigates to. *)
Definition url_bar_rule (input : string) (url : option string) : Prop :=
  (has_scheme input = false → includes input "." = true → includes input " " = false →
   url = Some ("https://" +:+ input)) ∧
  (has_scheme input = false → includes input "." = false ∨ includes input " " = true →
   ∃ u, url = Some u ∧ includes u (encodeURIComponent input) = true) ∧
  (has_scheme input = true → url = Some input).

End UrlBarTerms.

Section BucketTerms.
Import Js HistoryScreen.

Inductive Bucket : Type := Today | Yesterday | ThisWeek | Older.

#[global] Instance Bucket_eq_dec : EqDecision Bucket.
Proof. solve_decision. Defined.

(** The four windows, by their bounds, for a visit date as the engine read
    it.  A date it could not read is of the last window only. *)
Definition in_bucket (today : Z) (b : Bucket) (visitDate : option Z) : Prop :=
  match visitDate with
  | Some visit =>
      match b with
      | Today => today <= visit
      | Yesterday => today - 24 * 60 * 60 * 1000 <= visit < today
      | ThisWeek =>
          today - 7 * 24 * 60 * 60 * 1000 <= visit < today - 24 * 60 * 60 * 1000
      | Older => visit < today - 7 * 24 * 60 * 60 * 1000
      end
  | None => b = Older
  end.

#[global] Instance in_bucket_dec today b visitDate :
  Decision (in_bucket today b visitDate).
Proof. destruct visitDate, b; simpl; apply _. Defined.

Definition bucket_rows (host : Host) (today : Z) (b : Bucket)
    (rows : list HistoryItem.t) : list HistoryItem.t :=
  filter (fun r => in_bucket today b (visitDate host r)) rows.

(** The rows the search text lets through. *)
Definition searched (host : Host) (history : list HistoryItem.t) (searchQuery : string)
  : list HistoryItem.t :=
  if truthy (trim searchQuery)
  then filter (fun item => matches host searchQuery item) history
  else history.

Definition HOUR : Z := 60 * 60 * 1000.

(** Visits at now, two hours ago, twenty-six hours ago and eight days ago. *)
Definition four_visits (now : Z) : list HistoryItem.t :=
  [HistoryItem.mk 4 "https://example.com/a" "Alpha" now;
   HistoryItem.mk 3 "https://example.com/b" "Beta" (now - 2 * HOUR);
   HistoryItem.mk 2 "https://example.com/c" "Gamma" (now - 26 * HOUR);
   HistoryItem.mk 1 "https://example.com/d" "Delta" (now - 8 * DAY)].

(** One section per visit, as the specification expects them. *)
Definition one_each (rows : list HistoryItem.t) : list HistorySection :=
  match rows with
  | [a; b; c; d] =>
      [mkSection "Today" [a]; mkSection "Yesterday" [b];
       mkSection "This Week" [c]; mkSection "Older" [d]]
  | _ => []
  end.

(** One host among many: a device whose zone sits [zone] milliseconds ahead
    of UTC all year, with an engine that reads the stored text in the
    device's zone and folds the letters [A] to [Z]. *)
Definition midnight (zone now : Z) : Z := now - (now + zone) mod DAY.

Definition fixed_zone (zone : Z) : Host :=
  mkHost toLowerCaseASCII (midnight zone) (fun text => Some (text - zone)).

(** The same device with an engine that cannot read the stored text. *)
Definition unread (zone : Z) : Host :=
  mkHost toLowerCaseASCII (midnight zone) (fun _ => None).

(** Noon and one o'clock at night, UTC, on day 20000 of the epoch. *)
Definition noon : Z := 20000 * DAY + 12 * HOUR.

Definition one_at_night : Z := 20000 * DAY + 1 * HOUR.

End BucketTerms.

(** ** More of the screens *)

(** *** Sequences of calls to the database hook *)

Section DatabaseCalls.
Import Database.

(** The driver goes through with its next [n] calls. *)
Definition goes_through (n : nat) (fs : list (option string)) : bool :=
  forallb (fun x => match x with None => true | Some _ => false end) (take n fs).

(** One call to a function of the hook, by a screen. *)
Inductive Call : Type :=
  | Initialize
  | AddBookmark (now : Z) (url title : string)
  | RemoveBookmark (id : Z)
  | GetBookmarks
  | AddToHistory (now : Z) (url title : string)
  | GetHistory
  | RemoveHistoryItem (id : Z)
  | ClearHistory.

(** The world after a call, whether it resolved or threw. *)
Definition perform (w : World) (c : Call) : World :=
  match c with
  | Initialize => after initializeDatabase w
  | AddBookmark now url title => after (addBookmark now url title) w
  | RemoveBookmark id => after (removeBookmark id) w
  | GetBookmarks => after getBookmarks w
  | AddToHistory now url title => after (addToHistory now url title) w
  | GetHistory => after getHistory w
  | RemoveHistoryItem id => after (removeHistoryItem id) w
  | ClearHistory => after clearHistory w
  end.

(** A new device: the file is empty, the hook is not initialized, and the
    driver follows the plan [fs]. *)
Definition new_device (fs : list (option string)) : World :=
  {| db := false; file := empty_file; faults := fs; console := [] |}.

(** The world a new device is in after the calls [cs]. *)
Definition run (fs : list (option string)) (cs : list Call) : World :=
  foldl perform (new_device fs) cs.



(** Properties of the file that every function of the hook keeps. *)
Definition history_urls_unique (f : SQLiteDatabase) : Prop :=
  NoDup (HistoryItem.url <$> history f).

Definition bookmark_urls_unique (f : SQLiteDatabase) : Prop :=
  NoDup (BookmarkItem.url <$> bookmarks f).

(** A store with two bookmarks and two visited pages. *)
Definition shelf : SQLiteDatabase :=
  {| bookmarks := [BookmarkItem.mk 1 "https://example.com" "Example" 100;
                   BookmarkItem.mk 2 "https://example.org" "Other" 200];
     bookmarks_seq := 2;
     history := [HistoryItem.mk 1 "https://example.com" "Example" 100;
                 HistoryItem.mk 2 "https://example.org" "Other" 200];
     history_seq := 2 |}.

End DatabaseCalls.

(** *** Texts *)

Section Texts.
Import Js.

(** A byte of ASCII that is no white space, and a text of such bytes. *)
Definition solid_byte (c : ascii) : bool :=
  (nat_of_ascii c <? 128)%nat && negb (is_space c).

Fixpoint solid (s : string) : bool :=
  match s with
  | EmptyString => true
  | String c s' => solid_byte c && solid s'
  end.

End Texts.

(** *** BrowserScreen: the bookmark button *)

Module BrowserActions.
Import Js.

(** The two hooks the button reaches, and the alerts the screen has shown. *)
Record App : Type := mkApp {
  database : Database.World;
  device : Storage.World;
  alerts : list (string * string);
}.

(** [answer || 'Untitled'], where [None] stands for [undefined]. *)
Definition orUntitled (answer : option string) : string :=
  match answer with
  | Some title => if truthy title then title else "Untitled"
  | None => "Untitled"
  end.

(** [pageTitle] is how [await webViewRef.current?.getTitle()] ends, [today]
    the clock of the database at the insert, [now] the clock at the record,
    and [activityLog] the list the screen's [logActivity] captured.  The
    record is not awaited; it never throws, and the state is taken after it
    has settled. *)
Definition handleBookmark (activityLog : list ActivityLog.t) (today : Z) (now : Date)
    (pageTitle : Result (option string)) (currentUrl : string) (a : App) : App :=
  let failed :=
    {| database := database a; device := device a;
       alerts := alerts a ++ [("Error", "Failed to add bookmark")] |} in
  match pageTitle with
  | Throw _ => failed
  | Ok answer =>
      let title := orUntitled answer in
      match Database.addBookmark today currentUrl title (database a) with
      | (Throw _, d) =>
          {| database := d; device := device a;
             alerts := alerts a ++ [("Error", "Failed to add bookmark")] |}
      | (Ok _, d) =>
          {| database := d;
             device := after (Feedback.logActivity activityLog now "BOOKMARK"
                                ("User bookmarked: " +:+ currentUrl) None) (device a);
             alerts := alerts a ++ [("Bookmarked", "Page added to bookmarks successfully")] |}
      end
  end.

End BrowserActions.

(** *** SettingsScreen: the form and its save button *)

Module SettingsScreen.
Import Js Storage.
Local Open Scope async_scope.

(** [setLocalSettings(prev => ({ ...prev, [key]: value }))] *)
Definition handleSettingChange (key : string) (value : Value)
    (prev : gmap string Value) : gmap string Value :=
  <[key := value]> prev.

(** The form after the changes [edits], made one after the other. *)
Definition edited (localSettings : gmap string Value) (edits : list (string * Value))
  : gmap string Value :=
  foldl (fun prev e => handleSettingChange e.1 e.2 prev) localSettings edits.

(** The function resolves to the alert it shows.  [settings] is the value of
    the hook's state cell that its [updateSettings] captured. *)
Definition handleSaveSettings (settings localSettings : gmap string Value)
  : M World (string * string) :=
  try_catch
    (Settings.updateSettings settings localSettings;;
     ret ("Settings Saved", "Your preferences have been updated successfully"))
    (fun error => ret ("Error", "Failed to save settings")).

End SettingsScreen.

(** *** BookmarksScreen and HistoryScreen: the lists and their delete buttons *)

(** The two buttons of a confirmation [Alert.alert]: the one of style
    [cancel], which has no handler, and the one of style [destructive]. *)
Module Alert.
Inductive Button : Type := Cancel | Confirm.
End Alert.

Module BookmarksScreen.
Import Js.

Record Screen : Type := mkScreen {
  store : Database.World;
  bookmarks : list BookmarkItem.t;
  searchQuery : string;
  alerts : list (string * string);
}.

(** The filter's predicate. *)
Definition matches (host : Host) (searchQuery : string) (bookmark : BookmarkItem.t)
  : bool :=
  includes (toLowerCase host (BookmarkItem.title bookmark)) (toLowerCase host searchQuery)
  || includes (toLowerCase host (BookmarkItem.url bookmark)) (toLowerCase host searchQuery).

(** What the effect on [searchQuery] and [bookmarks] hands to
    [setFilteredBookmarks]. *)
Definition filteredBookmarks (host : Host) (s : Screen) : list BookmarkItem.t :=
  if truthy (trim (searchQuery s))
  then filter (fun bookmark => matches host (searchQuery s) bookmark) (bookmarks s)
  else bookmarks s.

Definition loadBookmarks (s : Screen) : Screen :=
  match Database.getBookmarks (store s) with
  | (Ok data, w) =>
      {| store := w; bookmarks := data; searchQuery := searchQuery s; alerts := alerts s |}
  | (Throw error, w) =>
      {| store := after (Database.console_error "Error loading bookmarks:" error) w;
         bookmarks := bookmarks s; searchQuery := searchQuery s; alerts := alerts s |}
  end.

(** [pressed] is the button of the confirmation the user presses.  The
    reload is not awaited; the screen is taken after it has settled. *)
Definition handleDeleteBookmark (id : Z) (pressed : Alert.Button) (s : Screen) : Screen :=
  match pressed with
  | Alert.Cancel => s
  | Alert.Confirm =>
      match Database.removeBookmark id (store s) with
      | (Ok _, w) =>
          loadBookmarks {| store := w; bookmarks := bookmarks s;
                           searchQuery := searchQuery s; alerts := alerts s |}
      | (Throw _, w) =>
          {| store := w; bookmarks := bookmarks s; searchQuery := searchQuery s;
             alerts := alerts s ++ [("Error", "Failed to delete bookmark")] |}
      end
  end.

End BookmarksScreen.

Module HistoryButtons.
Import Js.

Record Screen : Type := mkScreen {
  store : Database.World;
  history : list HistoryItem.t;
  searchQuery : string;
  alerts : list (string * string);
}.

(** What the effect on [history] and [searchQuery] hands to [setSections],
    at the instant [now]. *)
Definition sections (host : Host) (now : Z) (s : Screen)
  : list HistoryScreen.HistorySection :=
  HistoryScreen.organizeHistory host now (history s) (searchQuery s).

Definition loadHistory (s : Screen) : Screen :=
  match Database.getHistory (store s) with
  | (Ok data, w) =>
      {| store := w; history := data; searchQuery := searchQuery s; alerts := alerts s |}
  | (Throw error, w) =>
      {| store := after (Database.console_error "Error loading history:" error) w;
         history := history s; searchQuery := searchQuery s; alerts := alerts s |}
  end.

Definition handleDeleteHistoryItem (id : Z) (pressed : Alert.Button) (s : Screen) : Screen :=
  match pressed with
  | Alert.Cancel => s
  | Alert.Confirm =>
      match Database.removeHistoryItem id (store s) with
      | (Ok _, w) =>
          loadHistory {| store := w; history := history s;
                         searchQuery := searchQuery s; alerts := alerts s |}
      | (Throw _, w) =>
          {| store := w; history := history s; searchQuery := searchQuery s;
             alerts := alerts s ++ [("Error", "Failed to delete history item")] |}
      end
  end.

Definition handleClearAllHistory (pressed : Alert.Button) (s : Screen) : Screen :=
  match pressed with
  | Alert.Cancel => s
  | Alert.Confirm =>
      match Database.clearHistory (store s) with
      | (Ok _, w) =>
          loadHistory {| store := w; history := history s;
                         searchQuery := searchQuery s; alerts := alerts s |}
      | (Throw _, w) =>
          {| store := w; history := history s; searchQuery := searchQuery s;
             alerts := alerts s ++ [("Error", "Failed to clear history")] |}
      end
  end.

End HistoryButtons.

(** ** Tactics *)

Ltac unfold_async :=
  unfold result, after, bind, get, modify, ret, throw, try_catch, finally in *.

(** The tests that a byte below 128 fails. *)
Ltac low_byte x :=
  repeat match goal with
         | |- context [Js.code x =? ?k] =>
             rewrite (proj2 (Z.eqb_neq (Js.code x) k)) by lia
         | |- context [?k <=? Js.code x] =>
             rewrite (proj2 (Z.leb_gt k (Js.code x))) by lia
         end.

Ltac all_false := repeat (rewrite ?andb_false_r; cbn [andb orb]); try reflexivity.

(** * Laws *)

(** ** ORDER BY *)

Section OrderByFacts.
Context {A : Type} `{EqDecision A} (key : A -> Z).

Lemma insert_desc_perm r l : insert_desc key r l ≡ₚ r :: l.
Proof.
  induction l as [|x l IH]; simpl; [done|].
  destruct (key x <=? key r); [done|].
  rewrite IH. apply Permutation_swap.
Qed.

Lemma order_by_desc_perm l : order_by_desc key l ≡ₚ l.
Proof.
  induction l as [|x l IH]; simpl; [done|].
  by rewrite insert_desc_perm, IH.
Qed.

Lemma order_by_desc_length l : length (order_by_desc key l) = length l.
Proof. by rewrite order_by_desc_perm. Qed.

Lemma elem_of_order_by_desc x l : x ∈ order_by_desc key l ↔ x ∈ l.
Proof. by rewrite order_by_desc_perm. Qed.

Lemma insert_desc_sorted r l :
  StronglySorted (desc key) l → StronglySorted (desc key) (insert_desc key r l).
Proof.
  induction 1 as [|x l Hl IH Hx]; simpl.
  - repeat constructor.
  - destruct (Z.leb_spec (key x) (key r)) as [Hle|Hgt].
    + constructor; [by constructor|].
      constructor; [done|].
      eapply Forall_impl; [exact Hx|]. unfold desc. intros; lia.
    + constructor; [done|].
      rewrite insert_desc_perm. constructor; [unfold desc; lia | done].
Qed.

Lemma order_by_desc_sorted l : StronglySorted (desc key) (order_by_desc key l).
Proof.
  induction l; simpl; [constructor | by apply insert_desc_sorted].
Qed.

(** Whatever LIMIT cuts off is no newer than anything it lets through. *)
Lemma limit_splits (n : nat) l a b :
  a ∈ take n (order_by_desc key l) → b ∈ drop n (order_by_desc key l) →
  key b <= key a.
Proof.
  intros Ha Hb.
  pose proof (order_by_desc_sorted l) as Hs.
  rewrite <- (take_drop n (order_by_desc key l)) in Hs.
  exact (StronglySorted_app_1_elem_of (desc key) _ _ a b Hs Ha Hb).
Qed.

(** A row that fewer than [n] rows tie with or beat comes through LIMIT [n]. *)
Lemma limit_keeps (n : nat) l r :
  NoDup l → r ∈ l →
  (length (filter (fun x => x ≠ r ∧ (key r <= key x)%Z) l) < n)%nat →
  r ∈ take n (order_by_desc key l).
Proof.
  intros Hnd Hr Hcount.
  assert (Hs : NoDup (order_by_desc key l)) by by rewrite order_by_desc_perm.
  assert (Hin : r ∈ order_by_desc key l) by by apply elem_of_order_by_desc.
  rewrite <- (take_drop n (order_by_desc key l)) in Hin, Hs.
  apply elem_of_app in Hin as [Hin|Hin]; [done|exfalso].
  apply NoDup_app in Hs as (Hnd1 & Hdisj & _).
  assert (Hlen : length (take n (order_by_desc key l)) = n).
  { apply length_take_le. apply list_elem_of_lookup in Hin as [i Hi].
    apply lookup_lt_Some in Hi. rewrite length_drop in Hi. lia. }
  assert (Hsub : take n (order_by_desc key l)
                 ⊆+ filter (fun x => x ≠ r ∧ key r <= key x) l).
  { apply NoDup_submseteq; [done|]. intros x Hx.
    apply list_elem_of_filter. split; [split|].
    - intros ->. by apply (Hdisj r).
    - by apply (limit_splits n l).
    - apply elem_of_order_by_desc. by apply (subseteq_take n). }
  apply submseteq_length in Hsub. lia.
Qed.
End OrderByFacts.

(** ** Lists *)

Lemma filter_none {A} (P : A → Prop) `{∀ x, Decision (P x)} (l : list A) :
  Forall (fun x => ¬ P x) l → filter P l = [].
Proof.
  induction 1 as [|x l Hx _ IH]; [done|]. by rewrite filter_cons_False.
Qed.

Lemma filter_all {A} (P : A → Prop) `{∀ x, Decision (P x)} (l : list A) :
  Forall P l → filter P l = l.
Proof.
  induction 1 as [|x l Hx _ IH]; [done|]. by rewrite filter_cons_True, IH.
Qed.

(** ** The history table *)

Section HistoryTable.
Import Database.

Implicit Types (f : SQLiteDatabase) (h : list HistoryItem.t) (r : HistoryItem.t).

Lemma primary_key h r r' :
  NoDup (HistoryItem.id <$> h) → r ∈ h → r' ∈ h →
  HistoryItem.id r = HistoryItem.id r' → r = r'.
Proof.
  induction h as [|x h IH]; simpl; [by intros _ ?%elem_of_nil|].
  intros [Hx Hnd]%NoDup_cons [->|Hr]%elem_of_cons [->|Hr']%elem_of_cons Heq;
    [done| | |by apply IH].
  - destruct Hx. rewrite Heq. by apply list_elem_of_fmap_2.
  - destruct Hx. rewrite <- Heq. by apply list_elem_of_fmap_2.
Qed.

(** The rows that survive [delete_beyond_limit] are the rows LIMIT let
    through. *)
Lemma elem_of_delete_beyond_limit f r :
  NoDup (HistoryItem.id <$> history f) →
  r ∈ history (delete_beyond_limit f) ↔
  r ∈ take 1000 (order_by_desc HistoryItem.visited_at (history f)).
Proof.
  intros Hnd. unfold delete_beyond_limit, newest_ids; simpl.
  rewrite list_elem_of_filter. split.
  - intros [(r' & Heq & Hr')%list_elem_of_fmap Hr].
    assert (r' ∈ history f).
    { eapply elem_of_order_by_desc, subseteq_take, Hr'. }
    by rewrite (primary_key _ r r' Hnd).
  - intros Hr. split; [by apply list_elem_of_fmap_2|].
    eapply elem_of_order_by_desc, subseteq_take, Hr.
Qed.

Lemma delete_beyond_limit_perm f :
  NoDup (HistoryItem.id <$> history f) →
  history (delete_beyond_limit f)
    ≡ₚ take 1000 (order_by_desc HistoryItem.visited_at (history f)).
Proof.
  intros Hnd. pose proof (NoDup_fmap_1 _ _ Hnd) as Hnd'.
  apply NoDup_Permutation.
  - by apply NoDup_filter.
  - eapply sublist_NoDup; [|apply sublist_take].
    by rewrite order_by_desc_perm.
  - intros r. by apply elem_of_delete_beyond_limit.
Qed.

Lemma delete_beyond_limit_length f :
  NoDup (HistoryItem.id <$> history f) →
  length (history (delete_beyond_limit f)) = (1000 `min` length (history f))%nat.
Proof.
  intros Hnd. rewrite (delete_beyond_limit_perm f Hnd).
  by rewrite length_take, order_by_desc_length.
Qed.

Lemma delete_beyond_limit_sublist f :
  history (delete_beyond_limit f) `sublist_of` history f.
Proof. apply sublist_filter. Qed.

(** Oldest first: a row the statement deleted is no newer than any row it
    left. *)
Lemma delete_beyond_limit_oldest f gone kept :
  NoDup (HistoryItem.id <$> history f) →
  gone ∈ history f → gone ∉ history (delete_beyond_limit f) →
  kept ∈ history (delete_beyond_limit f) →
  HistoryItem.visited_at gone <= HistoryItem.visited_at kept.
Proof.
  intros Hnd Hin Hgone Hkept.
  rewrite elem_of_delete_beyond_limit in Hgone, Hkept by done.
  apply (limit_splits HistoryItem.visited_at 1000 (history f)); [done|].
  apply (elem_of_order_by_desc HistoryItem.visited_at) in Hin.
  rewrite <- (take_drop 1000 (order_by_desc _ (history f))) in Hin.
  by apply elem_of_app in Hin as [?|?].
Qed.

(** *** The statements keep the file well formed *)

Lemma wf_empty_file : wf_file empty_file.
Proof. split; simpl; constructor. Qed.

Lemma wf_set_history f h :
  wf_file f → h `sublist_of` history f → wf_file (set_history h f).
Proof.
  intros [Hids Hseq ? ?] Hsub. split; simpl; try done.
  - eapply sublist_NoDup; [exact Hids|]. by apply fmap_sublist.
  - rewrite Forall_forall in *. eauto using elem_of_sublist.
Qed.

Lemma wf_delete_history_url u f : wf_file f → wf_file (delete_history_url u f).
Proof. intros. apply wf_set_history; [done|apply sublist_filter]. Qed.

Lemma wf_delete_beyond_limit f : wf_file f → wf_file (delete_beyond_limit f).
Proof. intros. apply wf_set_history; [done|apply sublist_filter]. Qed.

Lemma wf_insert_history now u t f : wf_file f → wf_file (insert_history now u t f).
Proof.
  intros [Hnd Hseq ? ?]. split; simpl; try done.
  - rewrite fmap_app. apply NoDup_app. split_and!; [done| |apply NoDup_singleton].
    intros i (r & -> & Hr)%list_elem_of_fmap [Heq|[]%elem_of_nil]%elem_of_cons.
    rewrite Forall_forall in Hseq. specialize (Hseq r Hr). simpl in *. lia.
  - apply Forall_app. split.
    + eapply Forall_impl; [done|]. simpl. intros; lia.
    + repeat constructor. simpl. lia.
Qed.

(** *** What [addToHistory] does to an opened file *)

Lemma addToHistory_run now u t w :
  db w = true → faults w = [] →
  addToHistory now u t w = (Ok tt, set_file (visit now u t (file w)) w).
Proof.
  destruct w as [d f fs c]; simpl. intros -> ->. reflexivity.
Qed.

(** A call whose three statements the driver lets through. *)
Lemma addToHistory_through now u t w :
  db w = true → goes_through 3 (faults w) = true →
  result (addToHistory now u t) w = Ok tt ∧
  file (after (addToHistory now u t) w) = visit now u t (file w) ∧
  db (after (addToHistory now u t) w) = true ∧
  faults (after (addToHistory now u t) w) = drop 3 (faults w).
Proof.
  destruct w as [d f fs c]; simpl. intros -> Hgo.
  by destruct fs as [|[m1|] [|[m2|] [|[m3|] fs]]].
Qed.

Lemma goes_through_twice fs :
  goes_through 6 fs = true →
  goes_through 3 fs = true ∧ goes_through 3 (drop 3 fs) = true.
Proof.
  by destruct fs as [|[m1|] [|[m2|] [|[m3|] [|[m4|] [|[m5|] [|[m6|] fs]]]]]].
Qed.

Lemma wf_visit now u t f : wf_file f → wf_file (visit now u t f).
Proof.
  intros. by apply wf_delete_beyond_limit, wf_insert_history, wf_delete_history_url.
Qed.
End HistoryTable.

(** ** The hook keeps the file well formed

    Whatever the driver does, and wherever a call stops, the file stays
    as the schema promises: every world reached from a new device by the
    hook's functions satisfies [wf_file]. *)

Section Invariant.
Import Database.

Context (I : SQLiteDatabase → Prop).

Lemma keeps_ret {A} (a : A) : keeps I (ret a).
Proof. by intros w. Qed.

Lemma keeps_throw {A} e : keeps I (@throw World A e).
Proof. by intros w. Qed.

Lemma keeps_same {A} (m : M World A) : (∀ w, file (after m w) = file w) → keeps I m.
Proof. intros Hm w Hw. by rewrite Hm. Qed.

Lemma keeps_bind {A B} (m : M World A) (k : A → M World B) :
  keeps I m → (∀ a, keeps I (k a)) → keeps I (bind m k).
Proof.
  intros Hm Hk w Hw. specialize (Hm w Hw). unfold after, bind in *.
  destruct (m w) as [[a|e] w']; [by apply Hk|done].
Qed.

Lemma keeps_try_catch {A} (m : M World A) (h : string → M World A) :
  keeps I m → (∀ e, keeps I (h e)) → keeps I (try_catch m h).
Proof.
  intros Hm Hh w Hw. specialize (Hm w Hw). unfold after, try_catch in *.
  destruct (m w) as [[a|e] w']; [done|by apply Hh].
Qed.

Lemma keeps_driver {A} (stmt : SQLiteDatabase → A * SQLiteDatabase) :
  (∀ f, I f → I (snd (stmt f))) → keeps I (driver stmt).
Proof.
  intros Hstmt [d f fs c] Hw. specialize (Hstmt f Hw). unfold after, driver. cbn in *.
  destruct fs as [|[m|] fs]; [|done|]; by destruct (stmt f).
Qed.

Lemma keeps_runAsync stmt : (∀ f, I f → I (stmt f)) → keeps I (runAsync stmt).
Proof. intros. by apply keeps_driver. Qed.

Lemma keeps_console_error label e : keeps I (console_error label e).
Proof. by apply keeps_same. Qed.

End Invariant.

Section WellFormed.
Import Database.

Lemma wf_insert_bookmark now u t f : wf_file f → wf_file (insert_bookmark now u t f).
Proof.
  intros [? ? Hnd Hseq]. split; simpl; try done.
  - rewrite fmap_app. apply NoDup_app. split_and!; [done| |apply NoDup_singleton].
    intros i (b & -> & Hb)%list_elem_of_fmap [Heq|[]%elem_of_nil]%elem_of_cons.
    rewrite Forall_forall in Hseq. specialize (Hseq b Hb). simpl in *. lia.
  - apply Forall_app. split.
    + eapply Forall_impl; [done|]. simpl. intros; lia.
    + repeat constructor. simpl. lia.
Qed.

Lemma wf_delete_bookmark i f : wf_file f → wf_file (delete_bookmark i f).
Proof.
  intros [? ? Hnd Hseq]. split; simpl; try done.
  - eapply sublist_NoDup; [exact Hnd|]. apply fmap_sublist, sublist_filter.
  - rewrite Forall_forall in *. intros b [_ Hb]%list_elem_of_filter. by apply Hseq.
Qed.

Create HintDb keeps.

#[local] Hint Resolve keeps_ret keeps_throw keeps_console_error wf_insert_bookmark
  wf_delete_bookmark wf_delete_history_url wf_insert_history wf_delete_beyond_limit
  : keeps.

(** Every function of the hook keeps the file well formed. *)
Theorem hook_keeps_wf now u t i :
  keeps wf_file initializeDatabase ∧
  keeps wf_file (addBookmark now u t) ∧
  keeps wf_file (removeBookmark i) ∧
  keeps wf_file getBookmarks ∧
  keeps wf_file (addToHistory now u t) ∧
  keeps wf_file getHistory ∧
  keeps wf_file (removeHistoryItem i) ∧
  keeps wf_file clearHistory.
Proof.
  unfold initializeDatabase, addBookmark, removeBookmark, getBookmarks, addToHistory,
    getHistory, removeHistoryItem, clearHistory, getAllAsync, getFirstAsync.
  split_and!;
    repeat (intros; first
      [ apply keeps_bind | apply keeps_try_catch | apply keeps_runAsync
      | apply keeps_driver | apply keeps_ret | apply keeps_throw
      | apply keeps_console_error | apply keeps_same; reflexivity
      | match goal with
        | |- keeps _ (if ?b then _ else _) => destruct b
        | |- keeps _ (match ?x with _ => _ end) => destruct x
        end
      | by eauto with keeps
      | by apply wf_set_history; [|apply sublist_filter || apply sublist_nil_l] ]).
Qed.

(** A new device, once its database is opened. *)
Lemma wf_after_initialize fs :
  wf_file (file (after initializeDatabase (mkWorld false empty_file fs []))).
Proof. apply (hook_keeps_wf 0 "" "" 0), wf_empty_file. Qed.

(** Two cases in which few rows are stamped at or after a visit: the store is
    not full, or the clock has moved on since the last row. *)
Lemma few_newer_in_small_store (P : HistoryItem.t → Prop) `{∀ r, Decision (P r)} f :
  (length (history f) < 1000)%nat → (length (filter P (history f)) < 1000)%nat.
Proof. intros. pose proof (length_filter P (history f)). lia. Qed.

Lemma few_newer_when_clock_moved_on u now f :
  Forall (fun r => HistoryItem.visited_at r < now) (history f) →
  (length (filter (fun r => HistoryItem.url r ≠ u ∧ (now <= HistoryItem.visited_at r)%Z)
                  (history f)) < 1000)%nat.
Proof.
  intros Hall. rewrite filter_none; [simpl; lia|].
  eapply Forall_impl; [exact Hall|]. simpl. intros r Hr [_ Hle]. lia.
Qed.

End WellFormed.

Section Visits.
Import Database.

Implicit Types (f : SQLiteDatabase) (r : HistoryItem.t).

Lemma visit_seq now u t f : history_seq (visit now u t f) = history_seq f + 1.
Proof. reflexivity. Qed.

Lemma visit_before_limit now u t f :
  history (insert_history now u t (delete_history_url u f))
  = (filter (fun r => HistoryItem.url r ≠ u) (history f) ++ [visited now u t f])%list.
Proof. reflexivity. Qed.

Lemma visit_sublist now u t f :
  history (visit now u t f)
    `sublist_of` (filter (fun r => HistoryItem.url r ≠ u) (history f)
                    ++ [visited now u t f])%list.
Proof. rewrite <- visit_before_limit. apply delete_beyond_limit_sublist. Qed.

Lemma elem_of_visit now u t f r :
  r ∈ history (visit now u t f) →
  r = visited now u t f ∨ (r ∈ history f ∧ HistoryItem.url r ≠ u).
Proof.
  intros Hr. eapply elem_of_sublist in Hr; [|apply visit_sublist].
  apply elem_of_app in Hr as [Hr|Hr].
  - right. apply list_elem_of_filter in Hr. tauto.
  - left. by apply list_elem_of_singleton in Hr.
Qed.

Lemma visit_length now u t f :
  wf_file f → (length (history (visit now u t f)) <= 1000)%nat.
Proof.
  intros Hwf. unfold visit. rewrite delete_beyond_limit_length; [lia|].
  by apply wf_insert_history, wf_delete_history_url.
Qed.

(** The new row stays unless a thousand rows of other pages are stamped at
    or after it. *)
Lemma visit_kept now u t f :
  wf_file f →
  (length (filter (fun r => HistoryItem.url r ≠ u ∧ (now <= HistoryItem.visited_at r)%Z)
                  (history f)) < 1000)%nat →
  visited now u t f ∈ history (visit now u t f).
Proof.
  intros Hwf Hcount.
  pose proof (wf_insert_history now u t _ (wf_delete_history_url u f Hwf)) as [Hids _ _ _].
  apply elem_of_delete_beyond_limit; [done|].
  pose proof (NoDup_fmap_1 _ _ Hids) as Hnd.
  apply limit_keeps; [done|rewrite visit_before_limit; set_solver|].
  eapply Nat.le_lt_trans; [|exact Hcount].
  apply submseteq_length, NoDup_submseteq; [by apply NoDup_filter|].
  intros x [[Hne Hle] Hx]%list_elem_of_filter.
  rewrite visit_before_limit in Hx.
  apply elem_of_app in Hx as [Hx|Hx%list_elem_of_singleton]; [|done].
  apply list_elem_of_filter in Hx as [Hu Hx].
  apply list_elem_of_filter. by split.
Qed.

Lemma history_visit now u t f :
  history (visit now u t f)
  = filter (fun r => HistoryItem.id r
                     ∈ newest_ids (insert_history now u t (delete_history_url u f)))
      (filter (fun r => HistoryItem.url r ≠ u) (history f) ++ [visited now u t f])%list.
Proof. reflexivity. Qed.

(** Whatever the cap does, a visit leaves no other row for its page. *)
Lemma visit_rows_of_url now u t f :
  filter (fun r => HistoryItem.url r = u) (history (visit now u t f))
  = if decide (visited now u t f ∈ history (visit now u t f))
    then [visited now u t f] else [].
Proof.
  rewrite !history_visit.
  set (keep := fun r => HistoryItem.id r ∈ newest_ids _).
  rewrite !filter_app.
  rewrite (filter_none (fun r => HistoryItem.url r = u) (filter keep (filter _ _))).
  2:{ apply Forall_forall. intros r Hr.
      apply list_elem_of_filter in Hr as [_ Hr].
      apply list_elem_of_filter in Hr as [Hr _]. done. }
  rewrite (filter_singleton keep _ []), app_nil_l.
  destruct (decide (keep (visited now u t f))) as [Hk|Hk].
  - rewrite decide_True; [by rewrite (filter_singleton _ _ []), decide_True|].
    apply elem_of_app. right. by apply list_elem_of_singleton.
  - rewrite decide_False; [done|].
    intros [Hin|Hin%elem_of_nil]%elem_of_app; [|done].
    apply list_elem_of_filter in Hin as [_ Hin].
    apply list_elem_of_filter in Hin as [Hin _]. done.
Qed.
End Visits.

Section Revisit.
Import Database.

Lemma visit_count now u t f (P : HistoryItem.t → Prop) `{∀ r, Decision (P r)} :
  wf_file f →
  (length (filter (fun r => HistoryItem.url r ≠ u ∧ P r) (history (visit now u t f)))
   <= length (filter (fun r => HistoryItem.url r ≠ u ∧ P r) (history f)))%nat.
Proof.
  intros Hwf. pose proof (wf_visit now u t f Hwf) as [Hids _ _ _].
  apply submseteq_length, NoDup_submseteq.
  - by apply NoDup_filter, (NoDup_fmap_1 HistoryItem.id).
  - intros r [[Hu HP] [->|[Hr _]]%elem_of_visit]%list_elem_of_filter; [done|].
    by apply list_elem_of_filter.
Qed.

(** C1, as stated, fails in two ways, both calls resolving in each.  When
    the driver rejects the INSERT of the second visit, its DELETE has already
    removed the row of the first, and no row for [u] is left.  And when a
    thousand rows of other pages carry the timestamp of the visit, the cap
    keeps those, which come first in the table, and drops the row just
    inserted, with no call rejected. *)
Lemma revisit_can_leave_no_row :
  let u := "https://example.com" in
  let w := opened_with [None; None; None; None; Some "disk full"] two_rows in
  let w1 := after (addToHistory 300 u "Example") w in
  let w2 := after (addToHistory 400 u "Example Domain") w1 in
  let fresh := "https://fresh.example/" in
  let v := opened same_second in
  let v1 := after (addToHistory 5000 fresh "Fresh") v in
  let v2 := after (addToHistory 5000 fresh "Fresh again") v1 in
  (result (addToHistory 300 u "Example") w = Ok tt ∧
   result (addToHistory 400 u "Example Domain") w1 = Ok tt ∧
   filter (fun r => HistoryItem.url r = u) (history (file w2)) = []) ∧
  (result (addToHistory 5000 fresh "Fresh") v = Ok tt ∧
   result (addToHistory 5000 fresh "Fresh again") v1 = Ok tt ∧
   filter (fun r => HistoryItem.url r = fresh) (history (file v2)) = []).
Proof. vm_compute. split_and!; reflexivity. Qed.

(** C1, amended.  Two visits in a row to the same URL [u], on an opened
    store whose driver rejects none of the statements, with fewer than a
    thousand rows of other pages stamped at or after the second visit: the
    store then holds exactly one row whose URL is [u]; it is the row of the
    second visit, with the second visit's timestamp and title, and the row
    of the first visit is gone. *)
Theorem revisit_keeps_latest_row (w : World) (u t1 t2 : string) (now1 now2 : Z) :
  db w = true → goes_through 6 (faults w) = true → wf_file (file w) →
  (length (filter (fun r => HistoryItem.url r ≠ u ∧ (now2 <= HistoryItem.visited_at r)%Z)
                  (history (file w))) < 1000)%nat →
  let w1 := after (addToHistory now1 u t1) w in
  let w2 := after (addToHistory now2 u t2) w1 in
  result (addToHistory now1 u t1) w = Ok tt ∧
  result (addToHistory now2 u t2) w1 = Ok tt ∧
  filter (fun r => HistoryItem.url r = u) (history (file w2))
    = [HistoryItem.mk (history_seq (file w) + 2) u t2 now2] ∧
  HistoryItem.mk (history_seq (file w) + 1) u t1 now1 ∉ history (file w2).
Proof.
  intros Hdb Hgo Hwf Hcount w1 w2.
  destruct (goes_through_twice _ Hgo) as [Hgo1 Hgo2].
  destruct (addToHistory_through now1 u t1 w Hdb Hgo1) as (Hres1 & Hfile1 & Hdb1 & Hf1).
  fold w1 in Hfile1, Hdb1, Hf1. rewrite <- Hf1 in Hgo2.
  destruct (addToHistory_through now2 u t2 w1 Hdb1 Hgo2) as (Hres2 & Hfile2 & _ & _).
  fold w2 in Hfile2.
  assert (Hrows : filter (fun r => HistoryItem.url r = u) (history (file w2))
                  = [HistoryItem.mk (history_seq (file w) + 2) u t2 now2]).
  { rewrite Hfile2, visit_rows_of_url.
    rewrite decide_True.
    - unfold visited. rewrite Hfile1, visit_seq. do 2 f_equal. lia.
    - apply visit_kept; rewrite Hfile1; [by apply wf_visit|].
      eapply Nat.le_lt_trans; [|exact Hcount].
      by apply (visit_count now1 u t1 (file w)
                  (fun r => (now2 <= HistoryItem.visited_at r)%Z)). }
  split_and!; [done..|].
  intros Hin.
  assert (Hin' : HistoryItem.mk (history_seq (file w) + 1) u t1 now1
                 ∈ filter (fun r => HistoryItem.url r = u) (history (file w2))).
  { by apply list_elem_of_filter. }
  rewrite Hrows in Hin'. apply list_elem_of_singleton in Hin'.
  injection Hin'. lia.
Qed.

(** The store of two rows is well formed. *)
Lemma wf_two_rows : wf_file two_rows.
Proof.
  split; simpl; try (repeat constructor; fail).
  - apply (bool_decide_unpack _). vm_compute. exact I.
  - repeat constructor; simpl; lia.
Defined.

(** C1 on the store of two rows: the page of row 1 is visited at 300 and
    again at 400. *)
Lemma revisit_keeps_latest_row_witness :
  let w := opened two_rows in
  let w1 := after (addToHistory 300 "https://example.com" "Example") w in
  let w2 := after (addToHistory 400 "https://example.com" "Example Domain") w1 in
  result (addToHistory 300 "https://example.com" "Example") w = Ok tt ∧
  result (addToHistory 400 "https://example.com" "Example Domain") w1 = Ok tt ∧
  filter (fun r => HistoryItem.url r = "https://example.com") (history (file w2))
    = [HistoryItem.mk (history_seq (file w) + 2) "https://example.com" "Example Domain" 400] ∧
  HistoryItem.mk (history_seq (file w) + 1) "https://example.com" "Example" 300
    ∉ history (file w2).
Proof.
  apply (revisit_keeps_latest_row (opened two_rows)
           "https://example.com" "Example" "Example Domain" 300 400).
  - reflexivity.
  - reflexivity.
  - exact wf_two_rows.
  - vm_compute. lia.
Defined.
End Revisit.

Section Cap.
Import Database.

Lemma filter_keeps_all {A} (P : A → Prop) `{∀ x, Decision (P x)} (l : list A) :
  length (filter P l) = length l → filter P l = l.
Proof.
  induction l as [|x l IH]; [done|].
  rewrite filter_cons. destruct (decide (P x)); simpl.
  - intros [=]. f_equal. by apply IH.
  - intros Hlen. pose proof (length_filter P l). lia.
Qed.

(** A table of 1001 rows whose first row is strictly the oldest loses
    exactly that row. *)
Lemma delete_beyond_limit_first f oldest rest :
  NoDup (HistoryItem.id <$> history f) →
  history f = oldest :: rest → length rest = 1000%nat →
  Forall (fun r => HistoryItem.visited_at oldest < HistoryItem.visited_at r) rest →
  history (delete_beyond_limit f) = rest.
Proof.
  intros Hnd Hf Hlen Hold.
  pose proof (delete_beyond_limit_length f Hnd) as Hcap.
  rewrite Hf in Hcap. simpl in Hcap. rewrite Hlen in Hcap.
  assert (Hgone : oldest ∉ history (delete_beyond_limit f)).
  { intros Hin.
    destruct (decide (Forall (fun r => r ∈ history (delete_beyond_limit f)) rest))
      as [Hall|Hsome].
    - assert (Hsub : (oldest :: rest) ⊆+ history (delete_beyond_limit f)).
      { apply NoDup_submseteq.
        - rewrite <- Hf. by apply (NoDup_fmap_1 HistoryItem.id).
        - rewrite Forall_forall in Hall. intros x [->|Hx]%elem_of_cons; auto. }
      apply submseteq_length in Hsub. simpl in Hsub. lia.
    - apply not_Forall_Exists in Hsome; [|solve_decision].
      apply Exists_exists in Hsome as (e & He & Hout).
      rewrite Forall_forall in Hold. specialize (Hold e He).
      assert (HistoryItem.visited_at e <= HistoryItem.visited_at oldest); [|lia].
      apply (delete_beyond_limit_oldest f); [done| |done..].
      rewrite Hf. by right. }
  revert Hgone Hcap. unfold delete_beyond_limit. cbn [history set_history].
  rewrite Hf, filter_cons. case_decide as Hk.
  - intros []. by left.
  - intros _ Hcap. apply filter_keeps_all. lia.
Qed.

(** C2, amended.  On an opened store whose driver rejects none of the
    three statements, [addToHistory] never leaves more than 1000 rows, and
    it evicts oldest first: a row it drops for the cap is no newer than any
    row it leaves.  In particular, from 1000 rows with pairwise distinct
    URLs and strictly increasing timestamps, a visit to a fresh URL, stamped
    later than the earliest row, leaves exactly 1000 rows, and the earliest
    row is the one that is gone. *)
Theorem history_cap_evicts_oldest (w : World) (u t : string) (now : Z) :
  db w = true → goes_through 3 (faults w) = true → wf_file (file w) →
  let w' := after (addToHistory now u t) w in
  (length (history (file w')) <= 1000)%nat ∧
  (∀ gone kept,
     ((gone ∈ history (file w) ∧ HistoryItem.url gone ≠ u) ∨
        gone = visited now u t (file w)) →
     gone ∉ history (file w') → kept ∈ history (file w') →
     HistoryItem.visited_at gone <= HistoryItem.visited_at kept) ∧
  (∀ oldest rest,
     history (file w) = oldest :: rest →
     length (history (file w)) = 1000%nat →
     NoDup (HistoryItem.url <$> history (file w)) →
     StronglySorted Z.lt (HistoryItem.visited_at <$> history (file w)) →
     u ∉ HistoryItem.url <$> history (file w) →
     HistoryItem.visited_at oldest < now →
     length (history (file w')) = 1000%nat ∧
     (oldest ∉ history (file w')) ∧
     history (file w') = (rest ++ [visited now u t (file w)])%list).
Proof.
  intros Hdb Hgo Hwf w'.
  assert (Hw' : file w' = visit now u t (file w))
    by apply (addToHistory_through now u t w Hdb Hgo).
  pose proof (wf_insert_history now u t _ (wf_delete_history_url u _ Hwf))
    as [Hids _ _ _].
  rewrite Hw'. split_and!.
  - by apply visit_length.
  - intros gone kept Hgone Hout Hkept.
    apply (delete_beyond_limit_oldest
             (insert_history now u t (delete_history_url u (file w)))); [done| |done..].
    rewrite visit_before_limit. apply elem_of_app.
    destruct Hgone as [[Hin Hu]| ->].
    + left. by apply list_elem_of_filter.
    + right. by apply list_elem_of_singleton.
  - intros oldest rest Hh Hlen _ Hsorted Hfresh Hlater.
    assert (Hrows : history (visit now u t (file w))
                    = (rest ++ [visited now u t (file w)])%list).
    { apply (delete_beyond_limit_first _ oldest); [done| | |].
      - rewrite visit_before_limit, filter_all; [by rewrite Hh|].
        apply Forall_forall. intros r Hr Heq. apply Hfresh.
        rewrite <- Heq. by apply list_elem_of_fmap_2.
      - rewrite Hh in Hlen. simpl in Hlen. rewrite length_app. simpl. lia.
      - rewrite Hh, fmap_cons in Hsorted.
        apply StronglySorted_cons in Hsorted as [Hlt _].
        rewrite Forall_fmap in Hlt.
        apply Forall_app. split; [exact Hlt|].
        by repeat constructor. }
    rewrite Hrows. split_and!; [|  |done].
    + rewrite Hh in Hlen. simpl in Hlen. rewrite length_app. simpl. lia.
    + intros Hin.
      pose proof (NoDup_fmap_1 _ _ Hids) as Hnd.
      rewrite visit_before_limit, filter_all, Hh in Hnd.
      * simpl in Hnd. apply NoDup_cons in Hnd as [Hnotin _]. done.
      * apply Forall_forall. intros r Hr Heq. apply Hfresh.
        rewrite <- Heq. by apply list_elem_of_fmap_2.
Qed.
End Cap.

(** A store at the cap: a thousand pages, visited one per tick. *)
Section FullStore.
Import Database.

Lemma page_ids_NoDup a n : NoDup (HistoryItem.id <$> (page <$> seq a n)).
Proof.
  rewrite <- list_fmap_compose. apply NoDup_fmap_2_strong; [|apply NoDup_seq].
  intros x y _ _. simpl. lia.
Qed.

Lemma page_urls_NoDup a n : NoDup (HistoryItem.url <$> (page <$> seq a n)).
Proof.
  rewrite <- list_fmap_compose. apply NoDup_fmap_2_strong; [|apply NoDup_seq].
  intros x y _ _ [= Heq]. by apply (inj pretty).
Qed.

Lemma page_stamps_sorted a n :
  StronglySorted Z.lt (HistoryItem.visited_at <$> (page <$> seq a n)).
Proof.
  revert a. induction n as [|n IH]; intros a; [constructor|].
  cbn [seq]. rewrite !fmap_cons. constructor; [apply IH|].
  rewrite <- list_fmap_compose, Forall_fmap, Forall_seq.
  intros i Hi. simpl. lia.
Qed.

Lemma wf_full_store : wf_file full_store.
Proof.
  split; cbn [history bookmarks full_store history_seq bookmarks_seq].
  - apply page_ids_NoDup.
  - rewrite Forall_fmap, Forall_seq. intros i Hi. simpl. lia.
  - constructor.
  - constructor.
Qed.

Lemma fresh_url_not_stored a n :
  "https://fresh.example/" ∉ HistoryItem.url <$> (page <$> seq a n).
Proof.
  rewrite <- list_fmap_compose.
  intros (i & Heq & _)%list_elem_of_fmap. discriminate Heq.
Qed.

(** C2, as stated, fails where it says never: when the driver rejects the
    statement of the cap, the INSERT has gone through, the call resolves all
    the same, and the store at the cap is left with 1001 rows, the earliest
    among them. *)
Lemma cap_rejected_leaves_1001_rows :
  let w := opened_with [None; None; Some "disk full"] full_store in
  let w' := after (addToHistory 5000 "https://fresh.example/" "Fresh") w in
  result (addToHistory 5000 "https://fresh.example/" "Fresh") w = Ok tt ∧
  length (history (file w')) = 1001%nat ∧
  head (history (file w')) = Some (page 0).
Proof. vm_compute. split_and!; reflexivity. Qed.

(** C2, amended, on the store at the cap: a fresh page is visited at
    5000. *)
Lemma history_cap_evicts_oldest_witness :
  let w := opened full_store in
  let w' := after (addToHistory 5000 "https://fresh.example/" "Fresh") w in
  length (history (file w')) = 1000%nat ∧
  (page 0 ∉ history (file w')) ∧
  history (file w')
    = ((page <$> seq 1 999)
         ++ [HistoryItem.mk 1001 "https://fresh.example/" "Fresh" 5000])%list.
Proof.
  destruct (history_cap_evicts_oldest (opened full_store)
              "https://fresh.example/" "Fresh" 5000 eq_refl eq_refl wf_full_store)
    as (_ & _ & Hfull).
  apply (Hfull (page 0) (page <$> seq 1 999)).
  - reflexivity.
  - cbn [opened file full_store history]. by rewrite length_fmap, length_seq.
  - apply page_urls_NoDup.
  - apply page_stamps_sorted.
  - apply fresh_url_not_stored.
  - simpl. lia.
Defined.
End FullStore.

(** ** Bookmarks *)

Section Bookmarks.
Import Database.

Lemma select_bookmark_id_None u f :
  select_bookmark_id u f = None ↔
  filter (fun b => BookmarkItem.url b = u) (bookmarks f) = [].
Proof.
  unfold select_bookmark_id.
  destruct (filter _ (bookmarks f)) as [|b l]; simpl; split; congruence.
Qed.




End Bookmarks.

(** ** Before the database is opened, and when a query is rejected *)

Section NotReady.
Import Database.

(** C10. [getHistory] never throws: it resolves to a list in every world,
    to the empty list while [db] is still null, and to the empty list when
    the driver rejects the query.  [addToHistory] before initialization
    resolves and changes nothing, while [removeHistoryItem] and
    [clearHistory] throw in that state. *)
Theorem getHistory_never_fails (w : World) (message : string)
    (now id : Z) (u t : string) :
  (∃ rows, result getHistory w = Ok rows) ∧
  result getHistory (set_db false w) = Ok [] ∧
  result getHistory (set_db true (set_faults (Some message :: faults w) w)) = Ok [] ∧
  addToHistory now u t (set_db false w) = (Ok tt, set_db false w) ∧
  removeHistoryItem id (set_db false w) = (Throw not_initialized, set_db false w) ∧
  clearHistory (set_db false w) = (Throw not_initialized, set_db false w).
Proof.
  destruct w as [d f fs c]. split_and!; try reflexivity.
  unfold getHistory, console_error, getAllAsync, driver. unfold_async. simpl.
  destruct d; simpl; [|by eexists].
  destruct fs as [|[m|] fs]; simpl; by eexists.
Qed.
End NotReady.

(** ** Settings *)

Section SettingsLaws.
Import Js Storage Settings.

Lemma since_app w w' events : trace w' = (trace w ++ events)%list → since w w' = events.
Proof. unfold since. intros ->. by rewrite drop_app_length. Qed.

Lemma spread_lookup (a b : gmap string Value) (k : string) :
  spread a b !! k = match b !! k with Some v => Some v | None => a !! k end.
Proof.
  unfold spread. rewrite lookup_union. destruct (b !! k), (a !! k); done.
Qed.

(** C8. [updateSettings] lays the given fields over the current settings
    (a given field wins, every other field stays), writes the whole merged
    object to storage, and only then sets the state cell to it.  If the
    write is rejected, the call throws the save-failed error, and both the
    state cell and the storage are as they were. *)
Theorem updateSettings_saves_then_publishes (w : World)
    (newSettings : gmap string Value) :
  let merged := spread (settings w) newSettings in
  let w' := after (updateSettings (settings w) newSettings) w in
  (∀ k, merged !! k
        = match newSettings !! k with Some v => Some v | None => settings w !! k end) ∧
  match faults w with
  | Some _ :: _ =>
      result (updateSettings (settings w) newSettings) w = Throw save_failed ∧
      settings w' = settings w ∧
      storage w' = storage w
  | _ =>
      result (updateSettings (settings w) newSettings) w = Ok tt ∧
      storage w' !! SETTINGS_KEY = Some (Serialized (Obj merged)) ∧
      settings w' = merged ∧
      since w w' = [SetItem SETTINGS_KEY (Serialized (Obj merged)); SetSettings merged] ∧
      happens_before (writes SETTINGS_KEY) sets_settings (since w w') = true
  end.
Proof.
  intros merged w'. split; [intros k; apply spread_lookup|].
  subst w'. destruct w as [st fs c tr s l al mf].
  unfold updateSettings, saveSettingsToStorage, setItem, setSettings, console_error.
  unfold_async. cbn [faults storage settings trace]. fold merged.
  destruct fs as [|[m|] fs]; unfold since; cbn; [|done|];
    rewrite <- app_assoc, drop_app_length; cbn;
    (split_and!; [done|by rewrite lookup_insert_eq|done..]).
Qed.
End SettingsLaws.

Section LoadSettings.
Import Js Storage Settings.

Lemma loadSettings_parsed (w : World) (v : Value) :
  storage w !! SETTINGS_KEY = Some (Serialized v) → device_answers w →
  result loadSettings w = Ok tt ∧
  settings (after loadSettings w) = spread DEFAULT_SETTINGS (own_props v) ∧
  loading (after loadSettings w) = false.
Proof.
  destruct w as [st fs c tr s l al mf].
  unfold device_answers, loadSettings, getItem, setSettings, console_error.
  unfold_async. cbn [faults storage]. intros Hst Hfs.
  destruct fs as [|[m|] fs]; [|done|]; cbn; rewrite Hst; cbn; done.
Qed.

(** C5, as stated, fails: a key the stored blob has and the defaults lack
    is in the loaded settings, so their keys are not exactly the default
    ones. *)
Lemma loadSettings_keeps_unknown_key :
  settings (after loadSettings legacy_device) !! "legacyKey" = Some (Bool true) ∧
  DEFAULT_SETTINGS !! "legacyKey" = None ∧
  dom (settings (after loadSettings legacy_device)) ≠ dom DEFAULT_SETTINGS.
Proof.
  assert (Hin : settings (after loadSettings legacy_device) !! "legacyKey"
                = Some (Bool true)) by (vm_compute; reflexivity).
  assert (Hout : DEFAULT_SETTINGS !! "legacyKey" = None) by (vm_compute; reflexivity).
  split_and!; [done..|].
  intros Heq. apply not_elem_of_dom in Hout. apply Hout.
  rewrite <- Heq. apply elem_of_dom. by rewrite Hin.
Qed.

(** C5, amended.  When the stored text parses to a value [v], the loaded
    settings are the defaults with the properties of [v] laid over them:
    their keys are the default keys together with all keys of [v]; a key of
    [v] carries the stored value, whether the defaults know it or not; every
    other key carries its default. *)
Theorem loadSettings_merges_over_defaults (w : World) (v : Value) :
  storage w !! SETTINGS_KEY = Some (Serialized v) → device_answers w →
  let loaded := settings (after loadSettings w) in
  result loadSettings w = Ok tt ∧
  dom loaded = dom DEFAULT_SETTINGS ∪ dom (own_props v) ∧
  (∀ k x, own_props v !! k = Some x → loaded !! k = Some x) ∧
  (∀ k, own_props v !! k = None → loaded !! k = DEFAULT_SETTINGS !! k).
Proof.
  intros Hst Hfs loaded.
  destruct (loadSettings_parsed w v Hst Hfs) as (Hres & Hset & _).
  subst loaded. rewrite Hset. split_and!.
  - done.
  - unfold spread. rewrite dom_union_L. apply (comm_L (∪)).
  - intros k x Hk. by rewrite spread_lookup, Hk.
  - intros k Hk. by rewrite spread_lookup, Hk.
Qed.

(** C5, amended, on the device that holds the legacy blob. *)
Lemma loadSettings_merges_over_defaults_witness :
  let loaded := settings (after loadSettings legacy_device) in
  result loadSettings legacy_device = Ok tt ∧
  dom loaded = dom DEFAULT_SETTINGS ∪ dom (own_props legacy_blob) ∧
  (∀ k x, own_props legacy_blob !! k = Some x → loaded !! k = Some x) ∧
  (∀ k, own_props legacy_blob !! k = None → loaded !! k = DEFAULT_SETTINGS !! k).
Proof.
  apply (loadSettings_merges_over_defaults legacy_device legacy_blob).
  - vm_compute. reflexivity.
  - exact I.
Defined.
End LoadSettings.

(** ** The two logs *)

Section FeedbackLaws.
Import Js Storage Feedback.

(** C6, as stated, fails on the order: the state cell is set first and
    the write comes second. *)
Lemma logActivity_sets_state_first :
  let w := session [] in
  let w' := after (logActivity (activityLog w) tick "NAVIGATION"
                     "User navigated to: https://example.com" None) w in
  happens_before (writes ACTIVITY_LOG_KEY) sets_activity (since w w') = false ∧
  happens_before sets_activity (writes ACTIVITY_LOG_KEY) (since w w') = true.
Proof. vm_compute. done. Qed.

(** C6, amended.  [logActivity] and [addModuleFeedback] put the new entry
    in front of the list they hold, cut the result to the cap (1000 and
    500), set the state cell to it and then write the whole cut list to
    storage, in that order.  Neither throws; when the write is rejected the
    storage is as it was and the state cell still holds the new entry. *)
Theorem record_sets_state_then_writes (w : World) (now : Date)
    (activityType content : string) (module : option string)
    (moduleName : string) (feedbackType : ModuleFeedback.feedback_type)
    (message : string) (fileReference : option string) :
  let entry :=
    ActivityLog.mk (pretty (getTime now)) (toISOString now) activityType content module in
  let log := take 1000 (entry :: activityLog w) in
  let record := logActivity (activityLog w) now activityType content module in
  let entry' :=
    ModuleFeedback.mk moduleName feedbackType message (toISOString now) fileReference in
  let log' := take 500 (entry' :: moduleFeedback w) in
  let record' :=
    addModuleFeedback (moduleFeedback w) now moduleName feedbackType message
      fileReference in
  (result record w = Ok tt ∧
   activityLog (after record w) = log ∧
   head log = Some entry ∧ (length log <= 1000)%nat ∧
   match faults w with
   | Some _ :: _ =>
       since w (after record w) = [SetActivityLog log; SetItemRejected ACTIVITY_LOG_KEY] ∧
       storage (after record w) = storage w
   | _ =>
       since w (after record w)
         = [SetActivityLog log;
            SetItem ACTIVITY_LOG_KEY (Serialized (Arr (activity_json <$> log)))] ∧
       storage (after record w) !! ACTIVITY_LOG_KEY
         = Some (Serialized (Arr (activity_json <$> log)))
   end) ∧
  (result record' w = Ok tt ∧
   moduleFeedback (after record' w) = log' ∧
   head log' = Some entry' ∧ (length log' <= 500)%nat ∧
   match faults w with
   | Some _ :: _ =>
       since w (after record' w)
         = [SetModuleFeedback log'; SetItemRejected MODULE_FEEDBACK_KEY] ∧
       storage (after record' w) = storage w
   | _ =>
       since w (after record' w)
         = [SetModuleFeedback log';
            SetItem MODULE_FEEDBACK_KEY (Serialized (Arr (feedback_json <$> log')))] ∧
       storage (after record' w) !! MODULE_FEEDBACK_KEY
         = Some (Serialized (Arr (feedback_json <$> log')))
   end).
Proof.
  intros entry log record entry' log' record'.
  assert (Hlen : (length log <= 1000)%nat) by (unfold log; rewrite length_take; lia).
  assert (Hlen' : (length log' <= 500)%nat) by (unfold log'; rewrite length_take; lia).
  subst record record'. destruct w as [st fs c tr s l al mf].
  unfold logActivity, addModuleFeedback, setActivityLog, setModuleFeedback, setItem,
    console_error, since.
  unfold_async. cbn [faults storage trace activityLog moduleFeedback] in *.
  fold entry entry' log log'.
  destruct fs as [|[m|] fs];
    cbn [fst snd emit set_storage set_faults trace storage activityLog moduleFeedback
         faults console settings loading];
    rewrite <- !app_assoc, !drop_app_length, ?lookup_insert_eq; done.
Qed.
End FeedbackLaws.

Section LoginLaws.
Import Js Storage Feedback.

Lemma filter_cons_bool {A} (p : A → bool) (x : A) (l : list A) :
  filter (fun e => p e) (x :: l)
  = if p x then x :: filter (fun e => p e) l else filter (fun e => p e) l.
Proof. rewrite filter_cons. by destruct (p x). Qed.

Lemma storage_event_sets e :
  storage_event e = true → sets_activity e = false ∧ sets_feedback e = false.
Proof. by destruct e. Qed.

(** A record resolves, sets its cell, and then makes one storage call. *)
Lemma logActivity_spec log now activityType content module w :
  ∃ w' ev log',
    logActivity log now activityType content module w = (Ok tt, w') ∧
    trace w' = (trace w ++ [SetActivityLog log'; ev])%list ∧
    storage_event ev = true ∧
    head log' = Some (ActivityLog.mk (pretty (getTime now)) (toISOString now)
                        activityType content module) ∧
    log' = take 1000 (ActivityLog.mk (pretty (getTime now)) (toISOString now)
                        activityType content module :: log) ∧
    activityLog w' = log' ∧ moduleFeedback w' = moduleFeedback w.
Proof.
  destruct w as [st fs c tr s l al mf].
  unfold logActivity, setActivityLog, setItem, console_error. unfold_async.
  cbn [faults storage trace].
  destruct fs as [|[m|] fs]; eexists _, _, _;
    (split; [reflexivity|]);
    cbn [fst snd emit set_storage set_faults trace storage activityLog moduleFeedback
         faults console settings loading];
    rewrite <- !app_assoc; (split_and!; [reflexivity|done|reflexivity..]).
Qed.

Lemma addModuleFeedback_spec log now moduleName feedbackType message fileReference w :
  ∃ w' ev log',
    addModuleFeedback log now moduleName feedbackType message fileReference w
      = (Ok tt, w') ∧
    trace w' = (trace w ++ [SetModuleFeedback log'; ev])%list ∧
    storage_event ev = true ∧
    head log' = Some (ModuleFeedback.mk moduleName feedbackType message
                        (toISOString now) fileReference) ∧
    log' = take 500 (ModuleFeedback.mk moduleName feedbackType message
                       (toISOString now) fileReference :: log) ∧
    moduleFeedback w' = log' ∧ activityLog w' = activityLog w.
Proof.
  destruct w as [st fs c tr s l al mf].
  unfold addModuleFeedback, setModuleFeedback, setItem, console_error. unfold_async.
  cbn [faults storage trace].
  destruct fs as [|[m|] fs]; eexists _, _, _;
    (split; [reflexivity|]);
    cbn [fst snd emit set_storage set_faults trace storage activityLog moduleFeedback
         faults console settings loading];
    rewrite <- !app_assoc; (split_and!; [reflexivity|done|reflexivity..]).
Qed.

(** C7, as stated, fails: a login records two activity entries, not one,
    on the success branch and on the failure branch alike. *)
Lemma login_records_two_activities :
  let w := session [] in
  let won := simulateKAiSurfLogin (activityLog w) (moduleFeedback w) tick tock (1 # 2)
               "alpha beta" in
  let lost := simulateKAiSurfLogin (activityLog w) (moduleFeedback w) tick tock (1 # 10)
                "alpha beta" in
  result won w = Ok (LoginSuccess "alpha-2023-11-14-beta") ∧
  activity_records (since w (after won w)) = 2%nat ∧
  result lost w = Ok (LoginFailure "Invalid credentials") ∧
  activity_records (since w (after lost w)) = 2%nat ∧
  activity_records (since w (after won w)) ≠ 1%nat.
Proof. vm_compute. split_and!; done. Qed.

(** C7, amended.  Every call records a login-attempt entry in the activity
    log before the delay and, after it, one outcome entry in the activity
    log and one entry in the module feedback: two activity records and one
    feedback record, on either branch.  It resolves to the derived username
    when the draw is above 0.3 and to the failure reason otherwise. *)
Theorem login_records_attempt_and_outcome (w : World) (before later : Date)
    (random : Q) (roamingId : string) :
  let call :=
    simulateKAiSurfLogin (activityLog w) (moduleFeedback w) before later random
      roamingId in
  let events := since w (after call w) in
  result call w
    = Ok (if succeeds random then LoginSuccess (dailyUsername later roamingId)
          else LoginFailure "Invalid credentials") ∧
  activity_records events = 2%nat ∧
  feedback_records events = 1%nat ∧
  ∃ log1 log2 log3,
    filter (fun e => negb (storage_event e)) events
      = [SetActivityLog log1; Delay 1000; SetActivityLog log2; SetModuleFeedback log3] ∧
    head log1 = Some (attempt_entry before roamingId) ∧
    head log2 = Some (outcome_entry later random roamingId) ∧
    head log3 = Some (outcome_feedback later random roamingId).
Proof.
  intros call events. subst events call.
  unfold simulateKAiSurfLogin, outcome_entry, outcome_feedback, result, after, since,
    activity_records, feedback_records.
  destruct (logActivity_spec (activityLog w) before "KAISURF_LOGIN_ATTEMPT"
              ("Login attempt with roaming ID: " +:+ roamingId) (Some "KAiSurf") w)
    as (w1 & ev1 & log1 & E1 & T1 & S1 & H1 & _).
  pose proof (storage_event_sets ev1 S1) as [A1 F1].
  destruct (succeeds random).
  - destruct (logActivity_spec (activityLog w) later "KAISURF_LOGIN_SUCCESS"
                ("Successful login with username: " +:+ dailyUsername later roamingId)
                (Some "KAiSurf") (emit (Delay 1000) w1))
      as (w2 & ev2 & log2 & E2 & T2 & S2 & H2 & _).
    destruct (addModuleFeedback_spec (moduleFeedback w) later "KAiSurf"
                ModuleFeedback.SUCCESS
                ("Login successful. Daily username: " +:+ dailyUsername later roamingId)
                None w2)
      as (w3 & ev3 & log3 & E3 & T3 & S3 & H3 & _).
    pose proof (storage_event_sets ev2 S2) as [A2 F2].
    pose proof (storage_event_sets ev3 S3) as [A3 F3].
    unfold try_catch, bind, delay, modify, ret. rewrite E1, E2, E3.
    cbn [fst snd]. rewrite T3, T2. cbn [trace emit]. rewrite T1.
    rewrite <- !app_assoc, drop_app_length. cbn [app].
    rewrite !filter_cons_bool, !filter_nil. cbn [sets_activity sets_feedback storage_event negb].
    rewrite S1, S2, S3, A1, A2, A3, F1, F2, F3. cbn [negb length].
    split_and!; [reflexivity..|]. by exists log1, log2, log3.
  - destruct (logActivity_spec (activityLog w) later "KAISURF_LOGIN_FAILURE"
                "Login failed - invalid credentials" (Some "KAiSurf")
                (emit (Delay 1000) w1))
      as (w2 & ev2 & log2 & E2 & T2 & S2 & H2 & _).
    destruct (addModuleFeedback_spec (moduleFeedback w) later "KAiSurf"
                ModuleFeedback.ERROR "Login failed. Please check your roaming ID."
                None w2)
      as (w3 & ev3 & log3 & E3 & T3 & S3 & H3 & _).
    pose proof (storage_event_sets ev2 S2) as [A2 F2].
    pose proof (storage_event_sets ev3 S3) as [A3 F3].
    unfold try_catch, bind, delay, modify, ret. rewrite E1, E2, E3.
    cbn [fst snd]. rewrite T3, T2. cbn [trace emit]. rewrite T1.
    rewrite <- !app_assoc, drop_app_length. cbn [app].
    rewrite !filter_cons_bool, !filter_nil. cbn [sets_activity sets_feedback storage_event negb].
    rewrite S1, S2, S3, A1, A2, A3, F1, F2, F3. cbn [negb length].
    split_and!; [reflexivity..|]. by exists log1, log2, log3.
Qed.
(** What is left in the two state cells.  The outcome is recorded through the
    same closure as the attempt, over the list that closure captured: the
    cell ends with the outcome entry in front of that list. *)
Remark login_final_logs (w : World) (before later : Date) (random : Q)
    (roamingId : string) :
  let w' := after (simulateKAiSurfLogin (activityLog w) (moduleFeedback w) before later
                     random roamingId) w in
  activityLog w' = take 1000 (outcome_entry later random roamingId :: activityLog w) ∧
  moduleFeedback w' = take 500 (outcome_feedback later random roamingId :: moduleFeedback w).
Proof.
  intros w'. subst w'.
  unfold simulateKAiSurfLogin, outcome_entry, outcome_feedback, after.
  destruct (logActivity_spec (activityLog w) before "KAISURF_LOGIN_ATTEMPT"
              ("Login attempt with roaming ID: " +:+ roamingId) (Some "KAiSurf") w)
    as (w1 & ev1 & log1 & E1 & _ & _ & _ & _ & _ & F1).
  destruct (succeeds random).
  - destruct (logActivity_spec (activityLog w) later "KAISURF_LOGIN_SUCCESS"
                ("Successful login with username: " +:+ dailyUsername later roamingId)
                (Some "KAiSurf") (emit (Delay 1000) w1))
      as (w2 & ev2 & log2 & E2 & _ & _ & _ & L2 & A2 & F2).
    destruct (addModuleFeedback_spec (moduleFeedback w) later "KAiSurf"
                ModuleFeedback.SUCCESS
                ("Login successful. Daily username: " +:+ dailyUsername later roamingId)
                None w2)
      as (w3 & ev3 & log3 & E3 & _ & _ & _ & L3 & F3 & A3).
    unfold try_catch, bind, delay, modify, ret. rewrite E1, E2, E3. cbn [fst snd].
    by rewrite A3, A2, F3, L2, L3.
  - destruct (logActivity_spec (activityLog w) later "KAISURF_LOGIN_FAILURE"
                "Login failed - invalid credentials" (Some "KAiSurf")
                (emit (Delay 1000) w1))
      as (w2 & ev2 & log2 & E2 & _ & _ & _ & L2 & A2 & F2).
    destruct (addModuleFeedback_spec (moduleFeedback w) later "KAiSurf"
                ModuleFeedback.ERROR "Login failed. Please check your roaming ID."
                None w2)
      as (w3 & ev3 & log3 & E3 & _ & _ & _ & L3 & F3 & A3).
    unfold try_catch, bind, delay, modify, ret. rewrite E1, E2, E3. cbn [fst snd].
    by rewrite A3, A2, F3, L2, L3.
Qed.

End LoginLaws.

(** ** The URL bar *)

Section UrlBar.
Import Js BrowserScreen.

Lemma prefix_refl s : String.prefix s s = true.
Proof.
  induction s as [|c s IH]; [done|]. simpl.
  destruct (ascii_dec c c); [done|congruence].
Qed.

Lemma includes_refl s : includes s s = true.
Proof. destruct s; cbn [includes]; by rewrite prefix_refl. Qed.

Lemma includes_append p s : includes (p +:+ s) s = true.
Proof.
  induction p as [|c p IH]; simpl; [apply includes_refl|].
  rewrite IH. apply orb_true_r.
Qed.

Lemma truthy_nonempty s : s ≠ "" → truthy s = true.
Proof. by destruct s. Qed.

(** C9, as stated, fails where the input has white space around it: a
    domain typed with a leading space is not searched for but opened, and a
    URL typed with a trailing space does not pass through unchanged. *)
Lemma url_bar_rule_fails_untrimmed :
  target " example.com" = Some "https://example.com" ∧
  ¬ url_bar_rule " example.com" (target " example.com") ∧
  ¬ url_bar_rule "https://example.com " (target "https://example.com ").
Proof.
  split_and!; [reflexivity| |].
  - intros (_ & Hsearch & _).
    destruct Hsearch as (u & Hu & Hin); [reflexivity|by right|].
    vm_compute in Hu. injection Hu as <-. vm_compute in Hin. discriminate.
  - intros (_ & _ & Hpass). specialize (Hpass eq_refl).
    vm_compute in Hpass. discriminate.
Qed.

(** C9, amended.  [handleUrlSubmit] works on the input with the white space
    at its ends removed.  When nothing is left, it returns without
    navigating and leaves the screen as it is.  Otherwise it navigates to
    the URL the rule gives for the trimmed input; a search goes to the search
    engine's query URL with the trimmed text encoded. *)
Theorem handleUrlSubmit_follows_rule_on_trimmed (s : Screen) :
  let url := trim (urlInput s) in
  (url = "" → target (urlInput s) = None ∧ handleUrlSubmit s = s) ∧
  (url ≠ "" →
   url_bar_rule url (target (urlInput s)) ∧
   target (urlInput s) = Some (currentUrl (handleUrlSubmit s)) ∧
   (has_scheme url = false → includes url "." = false ∨ includes url " " = true →
    currentUrl (handleUrlSubmit s)
      = "https://www.google.com/search?q=" +:+ encodeURIComponent url)).
Proof.
  intros url. split.
  { intros Hblank.
    assert (Ht : target (urlInput s) = None) by (unfold target; fold url; by rewrite Hblank).
    split; [done|]. unfold handleUrlSubmit. by rewrite Ht. }
  intros Hne.
  assert (Ht : target (urlInput s)
               = Some (if has_scheme url then url
                       else if includes url "." && negb (includes url " ")
                            then "https://" +:+ url
                            else "https://www.google.com/search?q="
                                 +:+ encodeURIComponent url)).
  { unfold target. fold url. rewrite (truthy_nonempty url Hne). cbn [negb].
    by destruct (has_scheme url), (includes url "." && negb (includes url " ")). }
  unfold handleUrlSubmit, url_bar_rule. rewrite Ht. cbn [currentUrl].
  destruct (has_scheme url), (includes url ".") eqn:Hdot, (includes url " ") eqn:Hsp;
    cbn [andb negb];
    repeat match goal with
      | |- _ ∧ _ => split
      | |- _ → _ => intros ?
      | H : _ ∨ _ |- _ => destruct H
      | |- ∃ u, Some _ = Some u ∧ _ => eexists; split; [reflexivity|apply includes_append]
      end;
    try discriminate; reflexivity.
Qed.

(** C9, amended, on a search text typed with blanks around it. *)
Lemma handleUrlSubmit_follows_rule_on_trimmed_witness :
  let s := mkScreen "https://www.google.com" "  not a url " [] [] in
  let url := trim (urlInput s) in
  url_bar_rule url (target (urlInput s)) ∧
  target (urlInput s) = Some (currentUrl (handleUrlSubmit s)) ∧
  (has_scheme url = false → includes url "." = false ∨ includes url " " = true →
   currentUrl (handleUrlSubmit s)
     = "https://www.google.com/search?q=" +:+ encodeURIComponent url).
Proof.
  apply (proj2 (handleUrlSubmit_follows_rule_on_trimmed
                  (mkScreen "https://www.google.com" "  not a url " [] []))).
  vm_compute. discriminate.
Defined.

(** The three inputs the specification lists. *)
Example url_bar_examples :
  target "not a url" = Some "https://www.google.com/search?q=not%20a%20url" ∧
  target "example.com" = Some "https://example.com" ∧
  target "https://example.com" = Some "https://example.com" ∧
  target "   " = None ∧
  target nbsp = None ∧
  target (nbsp +:+ "example.com" +:+ nbsp) = Some "https://example.com".
Proof. by vm_compute. Qed.
End UrlBar.

(** ** The history list by day *)

Section Buckets.
Import Js HistoryScreen.

Lemma in_bucket_unique today visitDate :
  ∃ b, in_bucket today b visitDate ∧ ∀ b', in_bucket today b' visitDate → b' = b.
Proof.
  destruct visitDate as [visit|]; [|by exists Older].
  destruct (Z_lt_le_dec visit (today - 7 * 24 * 60 * 60 * 1000));
    [exists Older|destruct (Z_lt_le_dec visit (today - 24 * 60 * 60 * 1000));
       [exists ThisWeek|destruct (Z_lt_le_dec visit today);
          [exists Yesterday|exists Today]]];
    (split; [simpl; lia|intros []; simpl; intros; (done || lia)]).
Qed.

(** The loop sorts the rows into the four windows and keeps their order. *)
Lemma foldl_push host today items rows :
  foldl (push host today (today - 24 * 60 * 60 * 1000) (today - 7 * 24 * 60 * 60 * 1000))
        items rows
  = {| todayItems := todayItems items ++ bucket_rows host today Today rows;
       yesterdayItems := yesterdayItems items ++ bucket_rows host today Yesterday rows;
       thisWeekItems := thisWeekItems items ++ bucket_rows host today ThisWeek rows;
       olderItems := olderItems items ++ bucket_rows host today Older rows |}.
Proof.
  revert items. induction rows as [|r rows IH]; intros items.
  - destruct items. cbn. by rewrite !app_nil_r.
  - cbn [foldl]. rewrite IH. unfold push, bucket_rows. rewrite !filter_cons.
    destruct (visitDate host r) as [visit|]; cbn [at_or_after in_bucket].
    + repeat match goal with
             | |- context [?a <=? ?b] => destruct (Z.leb_spec a b)
             end;
        repeat case_decide; simpl in *; try lia;
        by rewrite <- ?app_assoc.
    + repeat case_decide; simpl in *; try done; by rewrite <- ?app_assoc.
Qed.

Lemma section_nonempty name rows : Forall (fun s => data s ≠ []) (section name rows).
Proof. destruct rows; cbn; repeat constructor. done. Qed.

(** What [organizeHistory] returns, by windows. *)
Lemma organizeHistory_sections host now history searchQuery :
  let today := startOfDay host now in
  let rows := searched host history searchQuery in
  organizeHistory host now history searchQuery
  = (section "Today" (bucket_rows host today Today rows) ++
     section "Yesterday" (bucket_rows host today Yesterday rows) ++
     section "This Week" (bucket_rows host today ThisWeek rows) ++
     section "Older" (bucket_rows host today Older rows))%list.
Proof.
  intros today rows. unfold organizeHistory. fold today.
  fold (searched host history searchQuery). by rewrite foldl_push.
Qed.

(** On a device without a change of the clock, the start of the day is the
    last midnight: less than 24 hours back. *)
Lemma midnight_bounds zone now :
  midnight zone now <= now < midnight zone now + DAY ∧
  (midnight zone now + zone) mod DAY = 0.
Proof.
  unfold midnight.
  pose proof (Z.mod_pos_bound (now + zone) DAY eq_refl). split; [lia|].
  replace (now - (now + zone) mod DAY + zone) with (now + zone - (now + zone) mod DAY)
    by lia.
  rewrite Zminus_mod, Z.mod_mod, Z.sub_diag; done.
Qed.
End Buckets.

Section FourVisits.
Import Js HistoryScreen.

(** C3, as stated, fails in several places.  At noon the four visits fall
    into three sections, not four: the visit of two hours ago is of today,
    and nothing falls into This Week.  A search text of one space is not
    empty, yet nothing is filtered.  A row stamped after now is put under
    Today, which therefore does not end at now.  And with an engine that
    cannot read the stored dates every visit is put under Older, whenever
    it was made. *)
Lemma four_visits_at_noon :
  organizeHistory (fixed_zone 0) noon (four_visits noon) "" ≠ one_each (four_visits noon) ∧
  title <$> organizeHistory (fixed_zone 0) noon (four_visits noon) ""
    = ["Today"; "Yesterday"; "Older"] ∧
  (filter (fun item => matches (fixed_zone 0) " " item) (four_visits noon) = [] ∧
   organizeHistory (fixed_zone 0) noon (four_visits noon) " "
     = organizeHistory (fixed_zone 0) noon (four_visits noon) "") ∧
  title <$> organizeHistory (fixed_zone 0) noon [HistoryItem.mk 5 "u" "t" (noon + HOUR)] ""
    = ["Today"] ∧
  organizeHistory (unread 0) one_at_night (four_visits one_at_night) ""
    = [mkSection "Older" (four_visits one_at_night)].
Proof. vm_compute. split_and!; done. Qed.

(** C3, amended.  [organizeHistory] keeps all rows when the search text is
    empty or all white space, and otherwise the rows whose title or URL,
    folded to lower case by the engine, contains the search text folded to
    lower case.  It puts each kept row into exactly one of four windows, by
    the visit date as the engine reads it and the start of the device's day:
    Today from the start of the day on, Yesterday the 24 hours before it,
    This Week the six times 24 hours before that, Older the rest and every
    row whose date the engine cannot read; the sections come in this order,
    rows in their order, and a window without rows gives no section.  Visits
    read as now, 2 hours, 26 hours and 8 days ago, with an empty search
    text, give the four sections with one visit each exactly when now is
    less than two hours past the start of the day.  From two hours on,
    within a day of 24 hours, they give Today with the first two visits,
    Yesterday with the third and Older with the fourth; in the 25th and 26th
    hour of a longer day the fourth is under This Week instead. *)
Theorem organizeHistory_buckets (host : Host) (now : Z) (history : list HistoryItem.t)
    (searchQuery : string) (a b c d : HistoryItem.t) :
  let today := startOfDay host now in
  let rows :=
    if truthy (trim searchQuery)
    then filter (fun item => matches host searchQuery item) history
    else history in
  let result := organizeHistory host now [a; b; c; d] "" in
  organizeHistory host now history searchQuery
    = (section "Today" (bucket_rows host today Today rows) ++
       section "Yesterday" (bucket_rows host today Yesterday rows) ++
       section "This Week" (bucket_rows host today ThisWeek rows) ++
       section "Older" (bucket_rows host today Older rows))%list ∧
  (∀ r, r ∈ rows →
     ∃ w, in_bucket today w (visitDate host r) ∧
          ∀ w', in_bucket today w' (visitDate host r) → w' = w) ∧
  Forall (fun s => data s ≠ []) (organizeHistory host now history searchQuery) ∧
  (visitDate host a = Some now →
   visitDate host b = Some (now - 2 * HOUR) →
   visitDate host c = Some (now - 26 * HOUR) →
   visitDate host d = Some (now - 8 * DAY) →
   (result = one_each [a; b; c; d] ↔ today <= now < today + 2 * HOUR) ∧
   (today + 2 * HOUR <= now < today + DAY →
    result = [mkSection "Today" [a; b]; mkSection "Yesterday" [c]; mkSection "Older" [d]]) ∧
   (today + DAY <= now < today + 26 * HOUR →
    result
    = [mkSection "Today" [a; b]; mkSection "Yesterday" [c]; mkSection "This Week" [d]])).
Proof.
  intros today rows result.
  pose proof (organizeHistory_sections host now) as Heq. cbv zeta in Heq. fold today in Heq.
  split_and!.
  - apply Heq.
  - intros r _. apply in_bucket_unique.
  - rewrite Heq. repeat (apply Forall_app; split); apply section_nonempty.
  - intros Ha Hb Hc Hd. subst result. rewrite Heq. unfold searched.
    cbn [trim trimStart trimEnd truthy]. clear Heq rows.
    unfold bucket_rows. rewrite !filter_cons, !filter_nil.
    rewrite Ha, Hb, Hc, Hd. clear Ha Hb Hc Hd.
    unfold in_bucket, one_each, DAY, HOUR in *.
    split_and!.
    + split.
      * repeat (case_decide; [try (exfalso; lia)|try (exfalso; lia)]);
          cbn; first [lia | intros Heq; exfalso; congruence].
      * intros Hnear.
        repeat (case_decide; [try (exfalso; lia)|try (exfalso; lia)]); reflexivity.
    + intros Hday.
      repeat (case_decide; [try (exfalso; lia)|try (exfalso; lia)]); reflexivity.
    + intros Hlong.
      repeat (case_decide; [try (exfalso; lia)|try (exfalso; lia)]); reflexivity.
Qed.

(** C3, amended, at one o'clock at night on a device on UTC: the four visits
    fall into four sections. *)
Lemma organizeHistory_buckets_witness :
  organizeHistory (fixed_zone 0) one_at_night (four_visits one_at_night) ""
  = one_each (four_visits one_at_night).
Proof.
  destruct (organizeHistory_buckets (fixed_zone 0) one_at_night [] ""
              (HistoryItem.mk 4 "https://example.com/a" "Alpha" one_at_night)
              (HistoryItem.mk 3 "https://example.com/b" "Beta" (one_at_night - 2 * HOUR))
              (HistoryItem.mk 2 "https://example.com/c" "Gamma" (one_at_night - 26 * HOUR))
              (HistoryItem.mk 1 "https://example.com/d" "Delta" (one_at_night - 8 * DAY)))
    as (_ & _ & _ & Hfour).
  destruct Hfour as ([_ Hiff] & _ & _).
  - vm_compute. reflexivity.
  - vm_compute. reflexivity.
  - vm_compute. reflexivity.
  - vm_compute. reflexivity.
  - apply Hiff. vm_compute. split; [discriminate|reflexivity].
Defined.
End FourVisits.

(** * More laws *)

(** ** The database hook, call by call *)

Section DatabaseOutcomes.
Import Database.

(** Where [addToHistory] stops. *)
Lemma addToHistory_stops now u t w :
  result (addToHistory now u t) w = Ok tt ∧
  file (after (addToHistory now u t) w)
  = if negb (db w) then file w
    else if goes_through 3 (faults w) then visit now u t (file w)
    else if goes_through 2 (faults w)
         then insert_history now u t (delete_history_url u (file w))
    else if goes_through 1 (faults w) then delete_history_url u (file w)
    else file w.
Proof.
  destruct w as [d f fs c]. destruct d; [|done].
  destruct fs as [|[m1|] [|[m2|] [|[m3|] fs]]]; done.
Qed.

(** [addBookmark] appends its row or leaves the file alone. *)
Lemma addBookmark_cases now u t w :
  (result (addBookmark now u t) w = Ok tt ∧ db w = true ∧
   select_bookmark_id u (file w) = None ∧
   file (after (addBookmark now u t) w) = insert_bookmark now u t (file w)) ∨
  (∃ e, result (addBookmark now u t) w = Throw e ∧
        file (after (addBookmark now u t) w) = file w).
Proof.
  destruct w as [d f fs c]. unfold addBookmark, console_error, getFirstAsync,
    runAsync, driver. unfold_async. simpl.
  destruct d; simpl; [|right; by eexists].
  destruct fs as [|[m1|] [|[m2|] fs]]; simpl;
    destruct (select_bookmark_id u f) eqn:Hsel; simpl;
    first [left; done | right; by eexists].
Qed.

(** A statement run alone, by a function that rethrows. *)
Lemma delete_cases (stmt : SQLiteDatabase → SQLiteDatabase) (label : string) w :
  let m := (let! w := get in
            if negb (db w) then throw not_initialized else
            try_catch (runAsync stmt)
              (fun error => console_error label error;; throw error))%async in
  result m w = (if negb (db w) then Throw not_initialized
                else match faults w with Some e :: _ => Throw e | _ => Ok tt end) ∧
  file (after m w) = (if db w && goes_through 1 (faults w) then stmt (file w) else file w).
Proof. destruct w as [d f fs c]. destruct d; [|done]. by destruct fs as [|[e|] fs]. Qed.

Lemma select_cases {A} (q : SQLiteDatabase → list A) (label : string) w :
  let m := (let! w := get in
            if negb (db w) then ret [] else
            try_catch (getAllAsync q)
              (fun error => console_error label error;; ret []))%async in
  result m w = Ok (if db w && goes_through 1 (faults w) then q (file w) else []) ∧
  file (after m w) = file w.
Proof. destruct w as [d f fs c]. destruct d; [|done]. by destruct fs as [|[e|] fs]. Qed.

End DatabaseOutcomes.

(** X1. [addToHistory] never throws and never touches the bookmarks.  While
    [db] is null it does nothing.  Otherwise it stops at the first statement
    the driver rejects and keeps what the statements before it did: nothing,
    or the rows of the URL deleted, or the new row inserted with the cap not
    applied; when no statement is rejected the table is the one after all
    three. *)
Theorem addToHistory_swallows_rejections (w : Database.World) (now : Z) (u t : string) :
  let w' := after (Database.addToHistory now u t) w in
  let h := Database.history (Database.file w) in
  let others := filter (fun r => HistoryItem.url r ≠ u) h in
  result (Database.addToHistory now u t) w = Ok tt ∧
  Database.bookmarks (Database.file w') = Database.bookmarks (Database.file w) ∧
  Database.history (Database.file w')
  = if negb (Database.db w) then h
    else if goes_through 3 (Database.faults w)
         then Database.history (visit now u t (Database.file w))
    else if goes_through 2 (Database.faults w)
         then (others ++ [visited now u t (Database.file w)])%list
    else if goes_through 1 (Database.faults w) then others
    else h.
Proof.
  intros w' h others. subst w' h others.
  destruct (addToHistory_stops now u t w) as [Hres Hfile].
  rewrite Hfile. clear Hfile.
  destruct (negb (Database.db w)); [done|].
  destruct (goes_through 3 (Database.faults w)); [done|].
  destruct (goes_through 2 (Database.faults w)); [done|].
  by destruct (goes_through 1 (Database.faults w)).
Qed.

Section Reachable.
Import Database.

Lemma history_urls_unique_sublist f h :
  history_urls_unique f → h `sublist_of` history f → history_urls_unique (set_history h f).
Proof.
  unfold history_urls_unique. cbn. intros Hf Hsub.
  eapply sublist_NoDup; [exact Hf|]. by apply fmap_sublist.
Qed.

Lemma history_urls_unique_insert now u t f :
  history_urls_unique f →
  history_urls_unique (insert_history now u t (delete_history_url u f)).
Proof.
  unfold history_urls_unique. cbn. intros Hf.
  rewrite fmap_app. apply NoDup_app. split_and!.
  - eapply sublist_NoDup; [exact Hf|]. apply fmap_sublist, sublist_filter.
  - intros x (r & -> & Hr)%list_elem_of_fmap [Heq|[]%elem_of_nil]%elem_of_cons.
    apply list_elem_of_filter in Hr as [Hne _]. done.
  - apply NoDup_singleton.
Qed.

Lemma bookmark_urls_unique_insert now u t f :
  bookmark_urls_unique f → select_bookmark_id u f = None →
  bookmark_urls_unique (insert_bookmark now u t f).
Proof.
  unfold bookmark_urls_unique. cbn. intros Hf Hnone%select_bookmark_id_None.
  rewrite fmap_app. apply NoDup_app. split_and!; [done| |apply NoDup_singleton].
  intros x (b & -> & Hb)%list_elem_of_fmap [Heq|[]%elem_of_nil]%elem_of_cons.
  eapply (filter_nil_not_elem_of _ _ b); [exact Hnone|exact Heq|done].
Qed.

Lemma initializeDatabase_file w : file (after initializeDatabase w) = file w.
Proof.
  destruct w as [d [b bs h hs] fs c].
  by destruct fs as [|[m1|] [|[m2|] fs]].
Qed.

(** What a call that leaves a table alone, or only deletes from it, keeps. *)
Lemma perform_keeps (I : SQLiteDatabase → Prop) w c :
  (∀ f i, I f → I (delete_bookmark i f)) →
  (∀ f h, I f → h `sublist_of` history f → I (set_history h f)) →
  (∀ f now u t, I f → select_bookmark_id u f = None → I (insert_bookmark now u t f)) →
  (∀ f now u t, I f → I (insert_history now u t (delete_history_url u f))) →
  I (file w) → I (file (perform w c)).
Proof.
  intros Hdb Hsub Hib Hih Hw. destruct c; cbn [perform].
  - by rewrite initializeDatabase_file.
  - destruct (addBookmark_cases now url title w) as [(_ & _ & Hnone & ->)|(e & _ & ->)];
      [by apply Hib|done].
  - destruct (delete_cases (delete_bookmark id) "Error removing bookmark:" w) as [_ Hf].
    unfold removeBookmark. rewrite Hf. destruct (_ && _); auto.
  - unfold getBookmarks.
    by rewrite (proj2 (select_cases select_bookmarks "Error getting bookmarks:" w)).
  - destruct (addToHistory_stops now url title w) as [_ ->].
    destruct (negb (db w)); [done|].
    destruct (goes_through 3 _); [apply Hsub; [by apply Hih|apply sublist_filter]|].
    destruct (goes_through 2 _); [by apply Hih|].
    destruct (goes_through 1 _); [|done].
    apply Hsub; [done|apply sublist_filter].
  - unfold getHistory.
    by rewrite (proj2 (select_cases select_history "Error getting history:" w)).
  - destruct (delete_cases (delete_history_id id) "Error removing history item:" w)
      as [_ Hf].
    unfold removeHistoryItem. rewrite Hf.
    destruct (_ && _); [|done]. apply Hsub; [done|apply sublist_filter].
  - destruct (delete_cases delete_history_all "Error clearing history:" w) as [_ Hf].
    unfold clearHistory. rewrite Hf.
    destruct (_ && _); [|done]. apply Hsub; [done|apply sublist_nil_l].
Qed.

Lemma run_keeps (J : World → Prop) fs cs :
  (∀ w c, J w → J (perform w c)) → J (new_device fs) → J (run fs cs).
Proof.
  intros Hstep Hnew. unfold run.
  assert (Hgen : ∀ w, J w → J (foldl perform w cs)).
  { induction cs as [|c cs IH]; intros w Hw; [done|]. cbn. by apply IH, Hstep. }
  by apply Hgen.
Qed.

Lemma perform_keeps_wf w c : wf_file (file w) → wf_file (file (perform w c)).
Proof.
  apply perform_keeps.
  - intros. by apply wf_delete_bookmark.
  - intros. by apply wf_set_history.
  - intros. by apply wf_insert_bookmark.
  - intros. by apply wf_insert_history, wf_delete_history_url.
Qed.

(** With a driver that rejects nothing, a call either leaves the history a
    sublist of what it was or is a full visit. *)
Lemma perform_without_rejections w c :
  faults w = [] →
  faults (perform w c) = [] ∧
  (history (file (perform w c)) `sublist_of` history (file w) ∨
   ∃ now u t, file (perform w c) = visit now u t (file w)).
Proof.
  destruct w as [d f fs c0]. cbn. intros ->.
  destruct c; cbn [perform].
  - destruct d; (split; [done|by left]).
  - destruct (addBookmark_cases now url title (mkWorld d f [] c0))
      as [(_ & _ & Hnone & Hf)|(e & _ & Hf)]; rewrite Hf; cbn.
    + split; [|by left]. destruct d; [|done]. cbn in Hnone.
      unfold addBookmark, getFirstAsync, runAsync, driver. unfold_async. cbn.
      by rewrite Hnone.
    + split; [|by left]. destruct d; [|done].
      unfold addBookmark, getFirstAsync, runAsync, driver. unfold_async. cbn.
      by destruct (select_bookmark_id url f).
  - destruct d; (split; [done|by left]).
  - destruct d; (split; [done|by left]).
  - destruct d; (split; [done|]); [right; by exists now, url, title|by left].
  - destruct d; (split; [done|by left]).
  - destruct d; (split; [done|left]); [apply sublist_filter|done].
  - destruct d; (split; [done|left]); [apply sublist_nil_l|done].
Qed.

End Reachable.

(** X2. On a device that starts with an empty file, whatever the screens
    call, one call after the other, and whatever the driver rejects, the
    history never holds two rows with the same URL. *)
Theorem history_never_repeats_a_url (fs : list (option string)) (cs : list Call) :
  NoDup (HistoryItem.url <$> Database.history (Database.file (run fs cs))).
Proof.
  apply (run_keeps (fun w => history_urls_unique (Database.file w))); [|constructor].
  intros w c. apply perform_keeps; try done.
  - intros. by apply history_urls_unique_sublist.
  - intros. by apply history_urls_unique_insert.
Qed.

(** X3. On a device that starts with an empty file, whatever the screens
    call, one call after the other, and whatever the driver rejects, no two
    bookmarks have the same URL. *)
Theorem bookmarks_never_repeat_a_url (fs : list (option string)) (cs : list Call) :
  NoDup (BookmarkItem.url <$> Database.bookmarks (Database.file (run fs cs))).
Proof.
  apply (run_keeps (fun w => bookmark_urls_unique (Database.file w))); [|constructor].
  intros w c. apply perform_keeps; try done.
  - unfold bookmark_urls_unique. cbn. intros f i Hf.
    eapply sublist_NoDup; [exact Hf|]. apply fmap_sublist, sublist_filter.
  - intros. by apply bookmark_urls_unique_insert.
Qed.

(** X4. Every file such a device reaches is well formed: ids are unique in
    each table and never above the table's AUTOINCREMENT counter. *)
Theorem reachable_files_are_well_formed (fs : list (option string)) (cs : list Call) :
  Database.wf_file (Database.file (run fs cs)).
Proof.
  apply (run_keeps (fun w => Database.wf_file (Database.file w))); [|apply wf_empty_file].
  intros w c. apply perform_keeps_wf.
Qed.

(** X5. While the driver rejects nothing, the history of such a device never
    holds more than 1000 rows, whatever the screens call, one call after the
    other. *)
Theorem history_cap_holds_without_rejections (cs : list Call) :
  (length (Database.history (Database.file (run [] cs))) <= 1000)%nat.
Proof.
  enough (Database.faults (run [] cs) = [] ∧
          Database.wf_file (Database.file (run [] cs)) ∧
          (length (Database.history (Database.file (run [] cs))) <= 1000)%nat) by tauto.
  apply (run_keeps (fun w => Database.faults w = [] ∧ Database.wf_file (Database.file w) ∧
           (length (Database.history (Database.file w)) <= 1000)%nat)).
  - intros w c (Hfs & Hwf & Hlen).
    destruct (perform_without_rejections w c Hfs) as [Hfs' Hh].
    split_and!; [done|by apply perform_keeps_wf|].
    destruct Hh as [Hsub|(now & u & t & ->)].
    + apply sublist_length in Hsub. lia.
    + by apply visit_length.
  - split_and!; [done|apply wf_empty_file|cbn; lia].
Qed.

Section BookmarkCalls.
Import Database.

Lemma not_bookmarked u f :
  select_bookmark_id u f = None ↔ u ∉ BookmarkItem.url <$> bookmarks f.
Proof.
  rewrite select_bookmark_id_None. split.
  - intros Hnil (b & -> & Hb)%list_elem_of_fmap.
    by eapply (filter_nil_not_elem_of _ _ b).
  - intros Hnot. apply filter_none, Forall_forall. intros b Hb Heq.
    apply Hnot, list_elem_of_fmap. eauto.
Qed.

Lemma NoDup_fmap_eq {A B} (g : A → B) (l : list A) x y :
  NoDup (g <$> l) → x ∈ l → y ∈ l → g x = g y → x = y.
Proof.
  induction l as [|a l IH]; simpl; [by intros _ ?%elem_of_nil|].
  intros [Ha Hnd]%NoDup_cons [->|Hx]%elem_of_cons [->|Hy]%elem_of_cons Heq;
    [done| | |by apply IH].
  - destruct Ha. rewrite Heq. by apply list_elem_of_fmap_2.
  - destruct Ha. rewrite <- Heq. by apply list_elem_of_fmap_2.
Qed.

Lemma filter_ext_in {A} (P Q : A → Prop) `{∀ x, Decision (P x)} `{∀ x, Decision (Q x)}
    (l : list A) :
  (∀ x, x ∈ l → P x ↔ Q x) → filter P l = filter Q l.
Proof.
  induction l as [|a l IH]; intros Hiff; [done|].
  rewrite !filter_cons. rewrite IH by (intros x Hx; apply Hiff; by right).
  destruct (decide (P a)) as [Hp|Hp], (decide (Q a)) as [Hq|Hq]; try done.
  - destruct Hq. apply Hiff; [left|done].
  - destruct Hp. apply Hiff; [left|done].
Qed.

Lemma addBookmark_run now u t w :
  db w = true → faults w = [] → select_bookmark_id u (file w) = None →
  addBookmark now u t w = (Ok tt, set_file (insert_bookmark now u t (file w)) w).
Proof.
  destruct w as [d f fs c]; cbn. intros -> -> Hnone.
  unfold addBookmark, getFirstAsync, runAsync, driver. unfold_async. cbn.
  by rewrite Hnone.
Qed.

Lemma wf_shelf : wf_file shelf.
Proof.
  split; cbn.
  - apply (bool_decide_unpack _). vm_compute. exact I.
  - repeat constructor; cbn; lia.
  - apply (bool_decide_unpack _). vm_compute. exact I.
  - repeat constructor; cbn; lia.
Qed.

End BookmarkCalls.

(** X6. [addBookmark] is all or nothing.  It resolves exactly when the
    database is opened, the driver rejects neither the lookup nor the
    insert, and no bookmark has this very URL; then one row is appended.
    Whenever it throws, the file is what it was. *)
Theorem addBookmark_all_or_nothing (w : Database.World) (now : Z) (u t : string) :
  (result (Database.addBookmark now u t) w = Ok tt ↔
     Database.db w = true ∧ goes_through 2 (Database.faults w) = true ∧
     u ∉ BookmarkItem.url <$> Database.bookmarks (Database.file w)) ∧
  Database.file (after (Database.addBookmark now u t) w)
  = match result (Database.addBookmark now u t) w with
    | Ok _ => Database.insert_bookmark now u t (Database.file w)
    | Throw _ => Database.file w
    end.
Proof.
  rewrite <- not_bookmarked.
  destruct w as [d f fs c].
  unfold Database.addBookmark, Database.console_error, Database.getFirstAsync,
    Database.runAsync, Database.driver. unfold_async. cbn.
  destruct d; cbn; [|split; [split; [done|by intros [? _]]|done]].
  destruct fs as [|[m1|] [|[m2|] fs]]; cbn;
    destruct (Database.select_bookmark_id u f); cbn;
    (split; [split; [done|by intros (_ & ? & ?)]|done]).
Qed.

(** X7. On an opened store whose driver answers, [removeBookmark] resolves
    and removes the bookmark with that id and no other: the other bookmarks
    stay in their order, the history and the id counter are untouched, and
    when no bookmark has the id the file is unchanged, so that a second call
    with the same id changes nothing. *)
Theorem removeBookmark_removes_that_row (w : Database.World) (i : Z) :
  Database.db w = true → answers w →
  let w' := after (Database.removeBookmark i) w in
  result (Database.removeBookmark i) w = Ok tt ∧
  (∀ b, b ∈ Database.bookmarks (Database.file w')
        ↔ b ∈ Database.bookmarks (Database.file w) ∧ BookmarkItem.id b ≠ i) ∧
  Database.bookmarks (Database.file w') `sublist_of` Database.bookmarks (Database.file w) ∧
  Database.history (Database.file w') = Database.history (Database.file w) ∧
  Database.bookmarks_seq (Database.file w') = Database.bookmarks_seq (Database.file w) ∧
  (i ∉ BookmarkItem.id <$> Database.bookmarks (Database.file w) →
   Database.file w' = Database.file w) ∧
  Database.delete_bookmark i (Database.file w') = Database.file w'.
Proof.
  intros Hdb Hans w'.
  destruct (delete_cases (Database.delete_bookmark i) "Error removing bookmark:" w)
    as [Hres Hfile].
  fold (Database.removeBookmark i) in Hres, Hfile.
  assert (Hgo : goes_through 1 (Database.faults w) = true).
  { unfold answers in Hans. by destruct (Database.faults w) as [|[e|] fs]. }
  rewrite Hdb, Hgo in Hfile. rewrite Hdb in Hres. cbn in Hres, Hfile.
  subst w'. rewrite Hfile. split_and!.
  - rewrite Hres. unfold answers in Hans. by destruct (Database.faults w) as [|[e|] fs].
  - intros b. cbn. rewrite list_elem_of_filter. tauto.
  - apply sublist_filter.
  - done.
  - done.
  - intros Hnot. destruct (Database.file w) as [b bs h hs]. cbn in *.
    unfold Database.delete_bookmark. cbn. f_equal.
    apply filter_all, Forall_forall. intros x Hx Heq. apply Hnot.
    rewrite <- Heq. by apply list_elem_of_fmap_2.
  - unfold Database.delete_bookmark. cbn. f_equal.
    apply filter_all, Forall_forall. intros x Hx. by apply list_elem_of_filter in Hx as [? _].
Qed.

(** X7 on the shelf: the first of its two bookmarks is removed. *)
Lemma removeBookmark_removes_that_row_witness :
  let w := Database.opened shelf in
  let w' := after (Database.removeBookmark 1) w in
  result (Database.removeBookmark 1) w = Ok tt ∧
  (∀ b, b ∈ Database.bookmarks (Database.file w')
        ↔ b ∈ Database.bookmarks (Database.file w) ∧ BookmarkItem.id b ≠ 1) ∧
  Database.bookmarks (Database.file w') `sublist_of` Database.bookmarks (Database.file w) ∧
  Database.history (Database.file w') = Database.history (Database.file w) ∧
  Database.bookmarks_seq (Database.file w') = Database.bookmarks_seq (Database.file w) ∧
  (1 ∉ BookmarkItem.id <$> Database.bookmarks (Database.file w) →
   Database.file w' = Database.file w) ∧
  Database.delete_bookmark 1 (Database.file w') = Database.file w'.
Proof.
  apply (removeBookmark_removes_that_row (Database.opened shelf) 1).
  - reflexivity.
  - exact I.
Defined.

(** X8. [removeHistoryItem] and [clearHistory] are all or nothing.  Each
    resolves exactly when the database is opened and the driver does not
    reject the statement; then the row with that id, or every row, is gone,
    and the id counter stays where it was, so no id is handed out again.
    Whenever one throws, the file is what it was.  Bookmarks are never
    touched. *)
Theorem history_deletes_all_or_nothing (w : Database.World) (i : Z) :
  let ready := Database.db w = true ∧ goes_through 1 (Database.faults w) = true in
  let w1 := after (Database.removeHistoryItem i) w in
  let w2 := after Database.clearHistory w in
  (result (Database.removeHistoryItem i) w = Ok tt ↔ ready) ∧
  (result Database.clearHistory w = Ok tt ↔ ready) ∧
  Database.history (Database.file w1)
  = match result (Database.removeHistoryItem i) w with
    | Ok _ => filter (fun r => HistoryItem.id r ≠ i) (Database.history (Database.file w))
    | Throw _ => Database.history (Database.file w)
    end ∧
  Database.history (Database.file w2)
  = match result Database.clearHistory w with
    | Ok _ => []
    | Throw _ => Database.history (Database.file w)
    end ∧
  Database.history_seq (Database.file w1) = Database.history_seq (Database.file w) ∧
  Database.history_seq (Database.file w2) = Database.history_seq (Database.file w) ∧
  Database.bookmarks (Database.file w1) = Database.bookmarks (Database.file w) ∧
  Database.bookmarks (Database.file w2) = Database.bookmarks (Database.file w).
Proof.
  destruct w as [d f fs c]. cbn.
  destruct d; [|repeat split; try done; by intros [? _]].
  destruct fs as [|[e|] fs]; repeat split; try done; by intros [_ ?].
Qed.

Section Queries.
Import Database.

Lemma order_by_desc_head `{EqDecision A} (key : A → Z) (l : list A) (x : A) :
  x ∈ l → (∀ y, y ∈ l → y ≠ x → key y < key x) →
  head (order_by_desc key l) = Some x.
Proof.
  intros Hx Hmax.
  pose proof (order_by_desc_sorted key l) as Hs.
  apply (elem_of_order_by_desc key) in Hx.
  assert (Hin : ∀ y, y ∈ order_by_desc key l → y ∈ l)
    by (intros y; apply elem_of_order_by_desc).
  destruct (order_by_desc key l) as [|a s]; [by apply elem_of_nil in Hx|].
  cbn. f_equal. destruct (decide (a = x)) as [Heq|Hne]; [done|].
  assert (Hlt : key a < key x) by (apply Hmax; [apply Hin; left|done]).
  apply elem_of_cons in Hx as [Hx|Hx]; [done|].
  apply StronglySorted_inv in Hs as [_ Hall].
  rewrite Forall_forall in Hall. specialize (Hall x Hx). unfold desc in Hall. lia.
Qed.

Lemma sorted_take {A} (R : A → A → Prop) (n : nat) (l : list A) :
  StronglySorted R l → StronglySorted R (take n l).
Proof.
  intros Hs. rewrite <- (take_drop n l) in Hs. by apply StronglySorted_app_1_l in Hs.
Qed.

End Queries.

(** X9. [getBookmarks] never throws and never changes the file.  On an
    opened store whose driver answers it resolves to all the bookmarks,
    newest first by creation time; while the database is not opened, or
    when the driver rejects the query, it resolves to the empty list. *)
Theorem getBookmarks_newest_first (w : Database.World) :
  ∃ rows, result Database.getBookmarks w = Ok rows ∧
    Database.file (after Database.getBookmarks w) = Database.file w ∧
    StronglySorted (desc BookmarkItem.created_at) rows ∧
    if Database.db w && goes_through 1 (Database.faults w)
    then rows ≡ₚ Database.bookmarks (Database.file w)
    else rows = [].
Proof.
  destruct (select_cases Database.select_bookmarks "Error getting bookmarks:" w)
    as [Hres Hfile].
  fold Database.getBookmarks in Hres, Hfile.
  eexists. split; [exact Hres|]. split; [exact Hfile|].
  destruct (Database.db w && goes_through 1 (Database.faults w)).
  - split; [apply order_by_desc_sorted|apply order_by_desc_perm].
  - split; [constructor|done].
Qed.

(** X10. [getHistory] never changes the file and resolves to at most 100
    rows of the history, newest first.  On an opened store whose driver
    answers these are the 100 newest, or all of them when there are fewer:
    no row that is left out was visited after a row that is listed. *)
Theorem getHistory_newest_hundred (w : Database.World) :
  ∃ rows, result Database.getHistory w = Ok rows ∧
    Database.file (after Database.getHistory w) = Database.file w ∧
    (length rows <= 100)%nat ∧
    StronglySorted (desc HistoryItem.visited_at) rows ∧
    rows ⊆+ Database.history (Database.file w) ∧
    if Database.db w && goes_through 1 (Database.faults w)
    then length rows = Nat.min 100 (length (Database.history (Database.file w))) ∧
         ∀ a b, a ∈ rows → b ∈ Database.history (Database.file w) → b ∉ rows →
                HistoryItem.visited_at b <= HistoryItem.visited_at a
    else rows = [].
Proof.
  destruct (select_cases Database.select_history "Error getting history:" w)
    as [Hres Hfile].
  fold Database.getHistory in Hres, Hfile.
  eexists. split; [exact Hres|]. split; [exact Hfile|].
  destruct (Database.db w && goes_through 1 (Database.faults w)).
  - unfold Database.select_history. split_and!.
    + rewrite length_take. lia.
    + apply sorted_take, order_by_desc_sorted.
    + etrans; [apply sublist_submseteq, sublist_take|].
      apply Permutation_submseteq, order_by_desc_perm.
    + by rewrite length_take, order_by_desc_length.
    + intros a b Ha Hb Hnot.
      apply (limit_splits HistoryItem.visited_at 100 (Database.history (Database.file w)));
        [done|].
      apply (elem_of_order_by_desc HistoryItem.visited_at) in Hb.
      rewrite <- (take_drop 100 (order_by_desc _ _)) in Hb.
      by apply elem_of_app in Hb as [Hb|Hb].
  - split_and!; [cbn; lia|constructor|apply submseteq_nil_l|done].
Qed.

(** X11. While the database is not opened nothing is stored: whichever
    function of the hook a screen calls, the file stays what it was, and
    only [initializeDatabase] can open the database. *)
Theorem nothing_stored_before_open (w : Database.World) (c : Call) :
  Database.file (perform (Database.set_db false w) c) = Database.file w ∧
  (c ≠ Initialize → Database.db (perform (Database.set_db false w) c) = false).
Proof.
  destruct w as [d f fs c0]. destruct c; cbn; try done.
  split; [|done].
  apply (initializeDatabase_file (Database.mkWorld false f fs c0)).
Qed.

(** X12. [initializeDatabase] never throws and leaves the rows of the file
    alone.  The database counts as opened afterwards exactly when the driver
    rejected neither opening the file nor the schema script, or when it was
    opened before; a rejection is written to the console and nothing else
    is. *)
Theorem initializeDatabase_outcomes (w : Database.World) :
  let w' := after Database.initializeDatabase w in
  result Database.initializeDatabase w = Ok tt ∧
  Database.file w' = Database.file w ∧
  Database.db w' = (goes_through 2 (Database.faults w) || Database.db w) ∧
  (if goes_through 2 (Database.faults w) then Database.console w' = Database.console w
   else ∃ e, Database.console w'
             = (Database.console w ++ [("Error initializing database:", e)])%list).
Proof.
  destruct w as [d [b bs h hs] fs c].
  destruct fs as [|[m1|] [|[m2|] fs]]; cbn; split_and!; try done; try by eexists.
  all: by destruct d.
Qed.

(** X13. A page visited after every stored visit is the first row of the
    next [getHistory], when the store is opened and the driver rejects
    nothing. *)
Theorem visited_page_heads_history (w : Database.World) (now : Z) (u t : string) :
  Database.db w = true → Database.faults w = [] → Database.wf_file (Database.file w) →
  Forall (fun r => HistoryItem.visited_at r < now) (Database.history (Database.file w)) →
  ∃ rows,
    result Database.getHistory (after (Database.addToHistory now u t) w)
    = Ok (visited now u t (Database.file w) :: rows).
Proof.
  intros Hdb Hfs Hwf Hold.
  unfold after. rewrite addToHistory_run by done. cbn [snd].
  destruct (select_cases Database.select_history "Error getting history:"
              (Database.set_file (visit now u t (Database.file w)) w)) as [Hres _].
  fold Database.getHistory in Hres. rewrite Hres. cbn [Database.db Database.set_file
    Database.faults]. rewrite Hdb, Hfs. cbn [andb goes_through take forallb].
  cbn [Database.file].
  assert (Hhead : head (order_by_desc HistoryItem.visited_at
                          (Database.history (visit now u t (Database.file w))))
                  = Some (visited now u t (Database.file w))).
  { apply order_by_desc_head.
    - apply visit_kept; [done|]. by apply few_newer_when_clock_moved_on.
    - intros r Hr Hne. apply elem_of_visit in Hr as [->|[Hr _]]; [done|].
      rewrite Forall_forall in Hold. by apply Hold. }
  unfold Database.select_history.
  destruct (order_by_desc _ _) as [|a s]; [done|].
  injection Hhead as ->. by eexists.
Qed.

(** X13 on the store of two rows, last visited at 200: a page is visited
    at 300. *)
Lemma visited_page_heads_history_witness :
  ∃ rows,
    result Database.getHistory
      (after (Database.addToHistory 300 "https://example.net" "Net") (Database.opened two_rows))
    = Ok (visited 300 "https://example.net" "Net" two_rows :: rows).
Proof.
  apply (visited_page_heads_history (Database.opened two_rows) 300
           "https://example.net" "Net").
  - reflexivity.
  - reflexivity.
  - apply wf_two_rows.
  - repeat constructor; cbn; lia.
Defined.

(** X14. A bookmark that was removed can be added again: on an opened store
    with unique bookmark URLs whose driver rejects nothing, [removeBookmark]
    of a bookmark's id followed by [addBookmark] of its URL resolves, and the
    new row comes last with an id above the old one. *)
Theorem removed_bookmark_can_be_added_again (w : Database.World) (b : BookmarkItem.t)
    (now : Z) (t : string) :
  Database.db w = true → Database.faults w = [] → Database.wf_file (Database.file w) →
  NoDup (BookmarkItem.url <$> Database.bookmarks (Database.file w)) →
  b ∈ Database.bookmarks (Database.file w) →
  let w1 := after (Database.removeBookmark (BookmarkItem.id b)) w in
  let w2 := after (Database.addBookmark now (BookmarkItem.url b) t) w1 in
  let new := BookmarkItem.mk (Database.bookmarks_seq (Database.file w) + 1)
               (BookmarkItem.url b) t now in
  result (Database.addBookmark now (BookmarkItem.url b) t) w1 = Ok tt ∧
  Database.bookmarks (Database.file w2)
  = (filter (fun x => x ≠ b) (Database.bookmarks (Database.file w)) ++ [new])%list ∧
  BookmarkItem.id b < BookmarkItem.id new.
Proof.
  intros Hdb Hfs Hwf Hurls Hb w1 w2 new.
  assert (Hw1 : w1 = Database.set_file
                  (Database.delete_bookmark (BookmarkItem.id b) (Database.file w)) w).
  { subst w1. destruct w as [d f fs c]. cbn in Hdb, Hfs. by subst. }
  assert (Hsame : filter (fun x => BookmarkItem.id x ≠ BookmarkItem.id b)
                    (Database.bookmarks (Database.file w))
                  = filter (fun x => x ≠ b) (Database.bookmarks (Database.file w))).
  { apply filter_ext_in. intros x Hx. split.
    - by intros Hne ->.
    - intros Hne Heq. apply Hne.
      by apply (NoDup_fmap_eq BookmarkItem.id (Database.bookmarks (Database.file w)));
        [apply Hwf|..]. }
  assert (Hfree : Database.select_bookmark_id (BookmarkItem.url b) (Database.file w1) = None).
  { apply not_bookmarked. rewrite Hw1. cbn. rewrite Hsame.
    intros (x & Heq & Hx)%list_elem_of_fmap.
    apply list_elem_of_filter in Hx as [Hne Hx]. apply Hne.
    by apply (NoDup_fmap_eq BookmarkItem.url (Database.bookmarks (Database.file w))). }
  assert (Hrun : Database.addBookmark now (BookmarkItem.url b) t w1
                 = (Ok tt, Database.set_file
                      (Database.insert_bookmark now (BookmarkItem.url b) t (Database.file w1))
                      w1)).
  { apply addBookmark_run; [by rewrite Hw1|by rewrite Hw1|done]. }
  subst w2. unfold result, after. rewrite Hrun. cbn [fst snd].
  split; [done|]. rewrite Hw1. cbn. rewrite Hsame.
  split; [done|].
  destruct Hwf as [_ _ _ Hseq]. rewrite Forall_forall in Hseq.
  specialize (Hseq b Hb). lia.
Qed.

(** X14 on the shelf: its first bookmark is removed and added again. *)
Lemma removed_bookmark_can_be_added_again_witness :
  let w := Database.opened shelf in
  let b := BookmarkItem.mk 1 "https://example.com" "Example" 100 in
  let w1 := after (Database.removeBookmark (BookmarkItem.id b)) w in
  let w2 := after (Database.addBookmark 300 (BookmarkItem.url b) "Again") w1 in
  let new := BookmarkItem.mk (Database.bookmarks_seq (Database.file w) + 1)
               (BookmarkItem.url b) "Again" 300 in
  result (Database.addBookmark 300 (BookmarkItem.url b) "Again") w1 = Ok tt ∧
  Database.bookmarks (Database.file w2)
  = (filter (fun x => x ≠ b) (Database.bookmarks (Database.file w)) ++ [new])%list ∧
  BookmarkItem.id b < BookmarkItem.id new.
Proof.
  apply (removed_bookmark_can_be_added_again (Database.opened shelf)
           (BookmarkItem.mk 1 "https://example.com" "Example" 100) 300 "Again").
  - reflexivity.
  - reflexivity.
  - apply wf_shelf.
  - apply (bool_decide_unpack _). vm_compute. exact I.
  - constructor.
Defined.

(** ** More of the settings *)

Section SettingsOutcomes.
Import Js Storage Settings.

(** Every way [loadSettings] can go, by what the device does and what the
    key holds. *)
Lemma loadSettings_cases (w : World) :
  let w' := after loadSettings w in
  result loadSettings w = Ok tt ∧ loading w' = false ∧
  match faults w with
  | Some _ :: _ => settings w' = DEFAULT_SETTINGS ∧ storage w' = storage w
  | _ =>
      match storage w !! SETTINGS_KEY with
      | Some (Serialized v) =>
          settings w' = spread DEFAULT_SETTINGS (own_props v) ∧ storage w' = storage w
      | Some Malformed => settings w' = DEFAULT_SETTINGS ∧ storage w' = storage w
      | Some Blank | None =>
          if goes_through 2 (faults w)
          then settings w' = settings w ∧
               storage w' = <[SETTINGS_KEY := Serialized (Obj DEFAULT_SETTINGS)]> (storage w)
          else settings w' = DEFAULT_SETTINGS ∧ storage w' = storage w
      end
  end.
Proof.
  destruct w as [st fs c tr s l al mf].
  unfold loadSettings, saveSettingsToStorage, getItem, setItem, setSettings, console_error.
  unfold_async. cbn [faults storage].
  destruct fs as [|[m|] fs]; [| |]; cbn; [|done|].
  - destruct (st !! SETTINGS_KEY) as [[v| |]|]; cbn; done.
  - destruct (st !! SETTINGS_KEY) as [[v| |]|]; cbn; try done;
      destruct fs as [|[m|] fs]; cbn; done.
Qed.

Lemma spread_covered (s l : gmap string Value) : dom s ⊆ dom l → spread s l = l.
Proof.
  intros Hsub. unfold spread. apply map_eq. intros k. rewrite lookup_union.
  destruct (l !! k) as [x|] eqn:Hl; [by destruct (s !! k)|].
  apply not_elem_of_dom in Hl.
  assert (Hs : k ∉ dom s) by (intros Hk; apply Hl, Hsub, Hk).
  apply not_elem_of_dom in Hs. by rewrite Hs.
Qed.

Lemma covers_defaults (m : gmap string Value) :
  dom DEFAULT_SETTINGS ⊆ dom m → spread DEFAULT_SETTINGS m = m.
Proof. apply spread_covered. Qed.

Lemma defaults_in_spread (m : gmap string Value) :
  dom DEFAULT_SETTINGS ⊆ dom (spread DEFAULT_SETTINGS m).
Proof. unfold spread. rewrite dom_union. apply union_subseteq_r. Qed.

End SettingsOutcomes.

(** X15. [loadSettings] never throws, whatever the device does and whatever
    the key holds, and it always ends the loading state.  Every setting the
    defaults name is present afterwards, if it was present before. *)
Theorem loadSettings_always_settles (w : Storage.World) :
  let w' := after Settings.loadSettings w in
  result Settings.loadSettings w = Ok tt ∧
  Storage.loading w' = false ∧
  (dom Settings.DEFAULT_SETTINGS ⊆ dom (Storage.settings w) →
   dom Settings.DEFAULT_SETTINGS ⊆ dom (Storage.settings w')).
Proof.
  intros w'. destruct (loadSettings_cases w) as (Hres & Hload & Hcases).
  fold w' in Hload, Hcases. split_and!; [done..|]. intros Hbefore.
  destruct (Storage.faults w) as [|[m|] fs].
  - destruct (Storage.storage w !! Settings.SETTINGS_KEY) as [[v| |]|].
    + destruct Hcases as [-> _]. apply defaults_in_spread.
    + by destruct Hcases as [-> _].
    + destruct (goes_through 2 []); by destruct Hcases as [-> _].
    + destruct (goes_through 2 []); by destruct Hcases as [-> _].
  - by destruct Hcases as [-> _].
  - destruct (Storage.storage w !! Settings.SETTINGS_KEY) as [[v| |]|].
    + destruct Hcases as [-> _]. apply defaults_in_spread.
    + by destruct Hcases as [-> _].
    + destruct (goes_through 2 _); by destruct Hcases as [-> _].
    + destruct (goes_through 2 _); by destruct Hcases as [-> _].
Qed.


(** X17. On a first run, when nothing or the empty text is under the key
    and the device answers the read, [loadSettings] writes the defaults
    under the key and leaves the state cell alone; when the device rejects
    that write, it sets the cell to the defaults instead and still
    resolves. *)
Theorem loadSettings_first_run (w : Storage.World) :
  Storage.present (Storage.storage w !! Settings.SETTINGS_KEY) = None →
  device_answers w →
  let w' := after Settings.loadSettings w in
  result Settings.loadSettings w = Ok tt ∧
  if goes_through 2 (Storage.faults w)
  then Storage.storage w'
       = <[Settings.SETTINGS_KEY := Storage.Serialized (Js.Obj Settings.DEFAULT_SETTINGS)]>
           (Storage.storage w) ∧
       Storage.settings w' = Storage.settings w
  else Storage.storage w' = Storage.storage w ∧
       Storage.settings w' = Settings.DEFAULT_SETTINGS.
Proof.
  intros Hnone Hans w'. destruct (loadSettings_cases w) as (Hres & _ & Hcases).
  fold w' in Hcases. split; [done|].
  unfold device_answers in Hans.
  destruct (Storage.faults w) as [|[m|] fs]; [|done|];
    destruct (Storage.storage w !! Settings.SETTINGS_KEY) as [[v| |]|]; try done;
    destruct (goes_through 2 _); tauto.
Qed.

(** X17 on a new device whose storage is empty. *)
Lemma loadSettings_first_run_witness :
  let w := Settings.mounted ∅ [] in
  let w' := after Settings.loadSettings w in
  result Settings.loadSettings w = Ok tt ∧
  if goes_through 2 (Storage.faults w)
  then Storage.storage w'
       = <[Settings.SETTINGS_KEY := Storage.Serialized (Js.Obj Settings.DEFAULT_SETTINGS)]>
           (Storage.storage w) ∧
       Storage.settings w' = Storage.settings w
  else Storage.storage w' = Storage.storage w ∧
       Storage.settings w' = Settings.DEFAULT_SETTINGS.
Proof.
  apply (loadSettings_first_run (Settings.mounted ∅ [])).
  - reflexivity.
  - exact I.
Defined.

(** X18. What [updateSettings] saved, [loadSettings] reads back: when the
    device answers the write and the read, a reload right after an update
    gives the defaults overlaid with the merged settings, and exactly the
    settings the update published when the settings it started from named
    every default. *)
Theorem updateSettings_then_load_round_trip (w : Storage.World)
    (settings newSettings : gmap string Js.Value) :
  goes_through 2 (Storage.faults w) = true →
  let w1 := after (Settings.updateSettings settings newSettings) w in
  let w2 := after Settings.loadSettings w1 in
  result (Settings.updateSettings settings newSettings) w = Ok tt ∧
  result Settings.loadSettings w1 = Ok tt ∧
  Storage.settings w1 = Js.spread settings newSettings ∧
  Storage.settings w2
    = Js.spread Settings.DEFAULT_SETTINGS (Js.spread settings newSettings) ∧
  (dom Settings.DEFAULT_SETTINGS ⊆ dom settings → Storage.settings w2 = Storage.settings w1).
Proof.
  intros Hgo w1 w2.
  assert (Hw2 : Storage.settings w2
                = Js.spread Settings.DEFAULT_SETTINGS (Js.spread settings newSettings) ∧
                Storage.settings w1 = Js.spread settings newSettings ∧
                result (Settings.updateSettings settings newSettings) w = Ok tt).
  { subst w2 w1. destruct w as [st fs c tr s l al mf]. cbn in Hgo.
    unfold after, result, Settings.loadSettings, Settings.updateSettings,
      Settings.saveSettingsToStorage, Storage.getItem, Storage.setItem,
      Storage.setSettings, Storage.console_error. unfold_async.
    cbn [Storage.faults Storage.storage].
    destruct fs as [|[m1|] [|[m2|] fs]]; try done; cbn;
      rewrite lookup_insert_eq; cbn; done. }
  destruct Hw2 as (Hw2 & Hw1 & Hres).
  split_and!; [done|apply loadSettings_cases|done|done|].
  intros Hsub. rewrite Hw2, Hw1. apply covers_defaults.
  unfold Js.spread. rewrite dom_union. by apply union_subseteq_r'.
Qed.

(** X18 on a new device: the homepage is changed, then the settings are
    loaded again. *)
Lemma updateSettings_then_load_round_trip_witness :
  let w := Settings.mounted ∅ [] in
  let settings := Settings.DEFAULT_SETTINGS in
  let newSettings : gmap string Js.Value := {[ "homepage" := Js.Str "https://example.com" ]} in
  let w1 := after (Settings.updateSettings settings newSettings) w in
  let w2 := after Settings.loadSettings w1 in
  result (Settings.updateSettings settings newSettings) w = Ok tt ∧
  result Settings.loadSettings w1 = Ok tt ∧
  Storage.settings w1 = Js.spread settings newSettings ∧
  Storage.settings w2
    = Js.spread Settings.DEFAULT_SETTINGS (Js.spread settings newSettings) ∧
  (dom Settings.DEFAULT_SETTINGS ⊆ dom settings → Storage.settings w2 = Storage.settings w1).
Proof.
  apply (updateSettings_then_load_round_trip (Settings.mounted ∅ [])
           Settings.DEFAULT_SETTINGS {[ "homepage" := Js.Str "https://example.com" ]}).
  reflexivity.
Defined.

(** X19. [resetSettings] is all or nothing.  When the device takes the
    write, the storage and the state cell hold the defaults, and the next
    [loadSettings] gives the defaults whatever the device does then.  When
    the device rejects the write, the call throws the save-failed error, not
    the device's, and the storage and the state cell are as they were. *)
Theorem resetSettings_outcomes (w : Storage.World) :
  let w' := after Settings.resetSettings w in
  match Storage.faults w with
  | Some _ :: _ =>
      result Settings.resetSettings w = Throw Settings.save_failed ∧
      Storage.settings w' = Storage.settings w ∧
      Storage.storage w' = Storage.storage w
  | _ =>
      result Settings.resetSettings w = Ok tt ∧
      Storage.settings w' = Settings.DEFAULT_SETTINGS ∧
      Storage.storage w'
        = <[Settings.SETTINGS_KEY := Storage.Serialized (Js.Obj Settings.DEFAULT_SETTINGS)]>
            (Storage.storage w) ∧
      Storage.settings (after Settings.loadSettings w') = Settings.DEFAULT_SETTINGS
  end.
Proof.
  intros w'.
  assert (Hself : Js.spread Settings.DEFAULT_SETTINGS Settings.DEFAULT_SETTINGS
                  = Settings.DEFAULT_SETTINGS) by by apply covers_defaults.
  assert (Hload : Storage.storage w' !! Settings.SETTINGS_KEY
                  = Some (Storage.Serialized (Js.Obj Settings.DEFAULT_SETTINGS)) →
                  Storage.settings (after Settings.loadSettings w') = Settings.DEFAULT_SETTINGS).
  { intros Hst. destruct (loadSettings_cases w') as (_ & _ & Hcases).
    rewrite Hst in Hcases. cbn [Js.own_props] in Hcases. rewrite Hself in Hcases.
    destruct (Storage.faults w') as [|[m|] fs]; tauto. }
  revert Hload. subst w'. destruct w as [st fs c tr s l al mf].
  unfold after at 1 2 3 4 5 6 7, result, Settings.resetSettings,
    Settings.saveSettingsToStorage, Storage.setItem, Storage.setSettings,
    Storage.console_error. unfold_async. cbn [Storage.faults Storage.storage].
  destruct fs as [|[m|] fs]; cbn; intros Hload; [|done|].
  - split_and!; [done..|]. apply Hload. by rewrite lookup_insert_eq.
  - split_and!; [done..|]. apply Hload. by rewrite lookup_insert_eq.
Qed.

(** ** More of the two logs *)

(** X20. [clearActivityLog] and [clearModuleFeedback] never throw, and each
    empties its own state cell and leaves the other alone.  The stored log
    is removed only when the device takes the removal: after a rejection
    the cell is empty while the stored log is still there. *)
Theorem clear_empties_cell_even_if_storage_keeps_log (w : Storage.World) :
  let w1 := after Feedback.clearActivityLog w in
  let w2 := after Feedback.clearModuleFeedback w in
  result Feedback.clearActivityLog w = Ok tt ∧
  result Feedback.clearModuleFeedback w = Ok tt ∧
  Storage.activityLog w1 = [] ∧ Storage.moduleFeedback w1 = Storage.moduleFeedback w ∧
  Storage.moduleFeedback w2 = [] ∧ Storage.activityLog w2 = Storage.activityLog w ∧
  Storage.storage w1
    = (if goes_through 1 (Storage.faults w)
       then delete Feedback.ACTIVITY_LOG_KEY (Storage.storage w) else Storage.storage w) ∧
  Storage.storage w2
    = (if goes_through 1 (Storage.faults w)
       then delete Feedback.MODULE_FEEDBACK_KEY (Storage.storage w) else Storage.storage w).
Proof.
  destruct w as [st fs c tr s l al mf].
  destruct fs as [|[m|] fs]; cbn; split_and!; reflexivity.
Qed.

(** X21. Two records made through the [logActivity] of one render do not
    add up: the second is laid over the list that render captured, so the
    state cell ends with the second entry in front of that list and without
    the first, and so does the stored log when the device takes the second
    write. *)
Theorem second_record_of_a_render_replaces_the_first (w : Storage.World)
    (activityLog : list ActivityLog.t) (now1 now2 : Js.Date)
    (type1 content1 type2 content2 : string) (module1 module2 : option string) :
  let second := ActivityLog.mk (pretty (Js.getTime now2)) (Js.toISOString now2)
                  type2 content2 module2 in
  let both := (Feedback.logActivity activityLog now1 type1 content1 module1;;
               Feedback.logActivity activityLog now2 type2 content2 module2)%async in
  result both w = Ok tt ∧
  Storage.activityLog (after both w) = take 1000 (second :: activityLog) ∧
  (goes_through 1 (drop 1 (Storage.faults w)) = true →
   Storage.storage (after both w) !! Feedback.ACTIVITY_LOG_KEY
   = Some (Storage.Serialized
             (Js.Arr (Feedback.activity_json <$> take 1000 (second :: activityLog))))).
Proof.
  intros second both. subst both.
  destruct (logActivity_spec activityLog now1 type1 content1 module1 w)
    as (w1 & ev1 & log1 & E1 & _).
  destruct (logActivity_spec activityLog now2 type2 content2 module2 w1)
    as (w2 & ev2 & log2 & E2 & _ & _ & _ & L2 & A2 & _).
  unfold result, after, bind. rewrite E1, E2. cbn [fst snd].
  split; [done|]. split; [by rewrite A2, L2|].
  intros Hgo.
  assert (Hf : Storage.faults w1 = drop 1 (Storage.faults w)).
  { destruct w as [st fs c tr s l al mf].
    unfold Feedback.logActivity, Storage.setActivityLog, Storage.setItem,
      Storage.console_error in E1. unfold_async. cbn [Storage.faults Storage.storage] in E1.
    destruct fs as [|[m|] fs]; cbn in E1; injection E1 as <-; reflexivity. }
  rewrite <- Hf in Hgo. clear E1 Hf.
  destruct w1 as [st fs c tr s l al mf].
  unfold Feedback.logActivity, Storage.setActivityLog, Storage.setItem,
    Storage.console_error in E2. unfold_async. cbn [Storage.faults Storage.storage] in E2, Hgo.
  destruct fs as [|[m|] fs]; [|done|]; cbn in E2; injection E2 as <-;
    cbn [Storage.storage Storage.emit Storage.set_storage]; by rewrite lookup_insert_eq.
Qed.

Section Usernames.
Import Js Feedback.

Lemma split_without_separator (sep : ascii) (s : string) :
  includes s (String sep EmptyString) = false → split sep s = [s].
Proof.
  induction s as [|c s IH]; [done|].
  cbn [includes split String.prefix]. intros Hno.
  apply orb_false_iff in Hno as [Hhead Htail].
  destruct (ascii_dec sep c) as [->|Hne].
  - by destruct s.
  - assert (Heqb : Ascii.eqb c sep = false) by (apply Ascii.eqb_neq; congruence).
    rewrite Heqb, (IH Htail). reflexivity.
Qed.

End Usernames.

(** X22. For a roaming id without a blank, the second word the daily
    username is built from is missing, and the username ends in
    [-undefined]: it is the whole id, the date, and that word. *)
Theorem dailyUsername_of_one_word_ends_in_undefined (now : Js.Date) (roamingId : string) :
  Js.includes roamingId " " = false →
  Feedback.dailyUsername now roamingId
  = roamingId +:+ "-" +:+ Js.interpolate (Js.split "T" (Js.toISOString now)) 0
      +:+ "-undefined".
Proof.
  intros Hno. unfold Feedback.dailyUsername.
  rewrite (split_without_separator " " roamingId Hno). reflexivity.
Qed.

(** X22 on the id [alpha] at the tick of the clock. *)
Lemma dailyUsername_of_one_word_ends_in_undefined_witness :
  Feedback.dailyUsername tick "alpha" = "alpha-2023-11-14-undefined".
Proof.
  apply (dailyUsername_of_one_word_ends_in_undefined tick "alpha"). reflexivity.
Defined.

(** ** More of the URL bar and of the search *)

Section Strings.
Import Js.

(** White space, from the front. *)

Lemma trimStart_strip s :
  trimStart s = match strip s with Some r => trimStart r | None => s end.
Proof.
  destruct s as [|a [|b [|c r]]]; cbn [trimStart strip]; try done.
  - by destruct (is_space a).
  - destruct (is_space a); [done|]. by destruct (is_space2 a b).
  - destruct (is_space a); [done|]. destruct (is_space2 a b); [done|].
    by destruct (is_space3 a b c).
Qed.

Lemma strip_length s r : strip s = Some r → (String.length r < String.length s)%nat.
Proof.
  destruct s as [|a [|b [|c s]]]; cbn [strip]; try done.
  - destruct (is_space a); [|done]. intros [= <-]. cbn. lia.
  - destruct (is_space a); [intros [= <-]; cbn; lia|].
    destruct (is_space2 a b); [|done]. intros [= <-]. cbn. lia.
  - destruct (is_space a); [intros [= <-]; cbn; lia|].
    destruct (is_space2 a b); [intros [= <-]; cbn; lia|].
    destruct (is_space3 a b c); [|done]. intros [= <-]. cbn. lia.
Qed.

(** Induction along [trimStart]. *)
Lemma strip_ind (P : string → Prop) :
  (∀ s, (∀ r, strip s = Some r → P r) → P s) → ∀ s, P s.
Proof.
  intros Hstep s.
  assert (Hgen : ∀ n s, (String.length s < n)%nat → P s).
  { induction n as [|n IH]; intros s' Hlen; [lia|].
    apply Hstep. intros r Hr. apply IH. apply strip_length in Hr. lia. }
  apply (Hgen (S (String.length s))). lia.
Qed.

Lemma strip_app x r w : strip x = Some r → strip (x +:+ w) = Some (r +:+ w).
Proof.
  destruct x as [|a [|b [|c x]]]; simpl; try done.
  - destruct (is_space a); [|done]. by intros [= <-].
  - destruct (is_space a); [by intros [= <-]|].
    destruct (is_space2 a b); [|done]. intros [= <-]. by destruct w as [|? [|]].
  - destruct (is_space a); [by intros [= <-]|].
    destruct (is_space2 a b); [by intros [= <-]|].
    destruct (is_space3 a b c); [|done]. by intros [= <-].
Qed.

Lemma strip_trimStart s : strip (trimStart s) = None.
Proof.
  revert s. apply strip_ind. intros s IH. rewrite trimStart_strip.
  destruct (strip s) as [r|] eqn:Hs; [by apply IH|done].
Qed.

Lemma trimStart_fixed s : strip s = None → trimStart s = s.
Proof. intros Hs. by rewrite trimStart_strip, Hs. Qed.

Lemma blank_app x w : blank x = true → blank (x +:+ w) = blank w.
Proof.
  unfold blank. revert x. apply (strip_ind (fun x =>
    negb (truthy (trimStart x)) = true →
    negb (truthy (trimStart (x +:+ w))) = negb (truthy (trimStart w)))).
  intros x IH. rewrite (trimStart_strip x).
  destruct (strip x) as [r|] eqn:Hx.
  - intros Hr. rewrite (trimStart_strip (x +:+ w)), (strip_app x r w Hx). by apply IH.
  - by destruct x.
Qed.

(** White space, from the back. *)

Lemma trimEnd_split s : ∃ w, s = trimEnd s +:+ w ∧ blank w = true.
Proof.
  induction s as [|c s (w & Hs & Hw)]; [by exists EmptyString|].
  cbn [trimEnd]. destruct (blank (String c s)) eqn:Hb.
  - by exists (String c s).
  - exists w. change (String c (trimEnd s) +:+ w) with (String c (trimEnd s +:+ w)).
    by rewrite <- Hs.
Qed.

Lemma trimEnd_trimEnd s : trimEnd (trimEnd s) = trimEnd s.
Proof.
  induction s as [|c s IH]; [done|]. cbn [trimEnd].
  destruct (blank (String c s)) eqn:Hb; [done|]. cbn [trimEnd]. rewrite IH.
  destruct (blank (String c (trimEnd s))) eqn:Hb'; [|done].
  destruct (trimEnd_split s) as (w & Hs & Hw).
  apply (blank_app _ w) in Hb'.
  change (String c (trimEnd s) +:+ w) with (String c (trimEnd s +:+ w)) in Hb'.
  rewrite <- Hs, Hw in Hb'. congruence.
Qed.

Lemma strip_trimEnd s : strip s = None → strip (trimEnd s) = None.
Proof.
  intros Hnone. destruct (trimEnd_split s) as (w & Hs & _).
  destruct (strip (trimEnd s)) as [r|] eqn:Hr; [|done].
  apply (strip_app _ _ w) in Hr. rewrite <- Hs in Hr. congruence.
Qed.

Lemma trim_trim s : trim (trim s) = trim s.
Proof.
  unfold trim. rewrite (trimStart_fixed (trimEnd (trimStart s))).
  - apply trimEnd_trimEnd.
  - apply strip_trimEnd, strip_trimStart.
Qed.

(** Folding the letters [A] to [Z] neither makes nor unmakes white space. *)

Lemma code_lower c :
  code (lower c) = code c ∨ (65 <= code c < 128 ∧ 65 <= code (lower c) < 128).
Proof.
  unfold code, lower. destruct (is_upper c) eqn:Hup; [right|by left].
  unfold is_upper in Hup. apply andb_true_iff in Hup as [Hlo Hhi].
  apply Nat.leb_le in Hlo, Hhi. rewrite nat_ascii_embedding by lia. lia.
Qed.

Lemma is_space_lower c : is_space (lower c) = is_space c.
Proof.
  pose proof (code_lower c) as Hc. unfold code in Hc.
  unfold is_space. apply eq_true_iff_eq.
  rewrite !orb_true_iff, !andb_true_iff, !Nat.leb_le, !Nat.eqb_eq. lia.
Qed.

Lemma is_space2_lower a b : is_space2 (lower a) (lower b) = is_space2 a b.
Proof.
  unfold is_space2.
  destruct (code_lower a) as [->|[Ha Ha']], (code_lower b) as [->|[Hb Hb']];
    [reflexivity|..]; low_byte a; low_byte (lower a); low_byte b; low_byte (lower b);
    all_false.
Qed.

Lemma is_space3_lower a b c : is_space3 (lower a) (lower b) (lower c) = is_space3 a b c.
Proof.
  unfold is_space3.
  destruct (code_lower a) as [->|[Ha Ha']], (code_lower b) as [->|[Hb Hb']],
    (code_lower c) as [->|[Hc Hc']];
    [reflexivity|..];
    low_byte a; low_byte (lower a); low_byte b; low_byte (lower b);
    low_byte c; low_byte (lower c); all_false.
Qed.

Lemma lower_lower c : lower (lower c) = lower c.
Proof.
  destruct (is_upper c) eqn:Hup.
  - assert (Hl : lower c = ascii_of_nat (nat_of_ascii c + 32))
      by (unfold lower; by rewrite Hup).
    rewrite Hl. unfold lower.
    assert (is_upper (ascii_of_nat (nat_of_ascii c + 32)) = false) as ->; [|done].
    unfold is_upper in *. apply andb_true_iff in Hup as [Hlo Hhi].
    apply Nat.leb_le in Hlo, Hhi. rewrite nat_ascii_embedding by lia.
    apply andb_false_iff. right. apply Nat.leb_gt. lia.
  - assert (Hl : lower c = c) by (unfold lower; by rewrite Hup).
    by rewrite !Hl.
Qed.

Lemma toLowerCaseASCII_idemp s :
  toLowerCaseASCII (toLowerCaseASCII s) = toLowerCaseASCII s.
Proof. induction s as [|c s IH]; [done|]. cbn. by rewrite lower_lower, IH. Qed.

Lemma strip_toLowerCaseASCII s :
  strip (toLowerCaseASCII s) = toLowerCaseASCII <$> strip s.
Proof.
  destruct s as [|a [|b [|c r]]]; cbn [strip toLowerCaseASCII];
    rewrite ?is_space_lower, ?is_space2_lower, ?is_space3_lower; try done.
  - by destruct (is_space a).
  - destruct (is_space a); [done|]. by destruct (is_space2 a b).
  - destruct (is_space a); [done|]. destruct (is_space2 a b); [done|].
    by destruct (is_space3 a b c).
Qed.

Lemma trimStart_toLowerCaseASCII s :
  trimStart (toLowerCaseASCII s) = toLowerCaseASCII (trimStart s).
Proof.
  revert s. apply strip_ind. intros s IH.
  rewrite (trimStart_strip s), (trimStart_strip (toLowerCaseASCII s)),
    strip_toLowerCaseASCII.
  destruct (strip s) as [r|] eqn:Hs; cbn; [by apply IH|done].
Qed.

Lemma blank_toLowerCaseASCII s : blank (toLowerCaseASCII s) = blank s.
Proof.
  unfold blank. rewrite trimStart_toLowerCaseASCII. by destruct (trimStart s).
Qed.

Lemma trimEnd_toLowerCaseASCII s :
  trimEnd (toLowerCaseASCII s) = toLowerCaseASCII (trimEnd s).
Proof.
  induction s as [|c s IH]; [done|].
  cbn [trimEnd]. rewrite <- (blank_toLowerCaseASCII (String c s)).
  cbn [toLowerCaseASCII trimEnd].
  destruct (blank (String (lower c) (toLowerCaseASCII s))); [done|].
  cbn [toLowerCaseASCII]. by rewrite IH.
Qed.

Lemma truthy_trim_toLowerCaseASCII s :
  truthy (trim (toLowerCaseASCII s)) = truthy (trim s).
Proof.
  unfold trim. rewrite trimStart_toLowerCaseASCII, trimEnd_toLowerCaseASCII.
  by destruct (trimEnd (trimStart s)).
Qed.

End Strings.

(** X23. With an engine that folds the letters [A] to [Z], the search of
    the history screen and of the bookmarks screen does not depend on the
    letter case of the search text or of the rows: [organizeHistory] gives
    the same sections, and the bookmarks screen the same list, for a search
    text and for the text in lower case, and a row matches exactly when the
    row with its title and URL in lower case does. *)
Theorem search_ignores_letter_case (startOfDay : Z → Z) (parseDate : Z → option Z)
    (now : Z) (history : list HistoryItem.t)
    (searchQuery : string) (item : HistoryItem.t) (s : BookmarksScreen.Screen) :
  let host := Js.mkHost Js.toLowerCaseASCII startOfDay parseDate in
  HistoryScreen.organizeHistory host now history (Js.toLowerCaseASCII searchQuery)
    = HistoryScreen.organizeHistory host now history searchQuery ∧
  HistoryScreen.matches host searchQuery
    (HistoryItem.mk (HistoryItem.id item) (Js.toLowerCaseASCII (HistoryItem.url item))
       (Js.toLowerCaseASCII (HistoryItem.title item)) (HistoryItem.visited_at item))
    = HistoryScreen.matches host searchQuery item ∧
  BookmarksScreen.filteredBookmarks host
    (BookmarksScreen.mkScreen (BookmarksScreen.store s) (BookmarksScreen.bookmarks s)
       (Js.toLowerCaseASCII (BookmarksScreen.searchQuery s)) (BookmarksScreen.alerts s))
    = BookmarksScreen.filteredBookmarks host s.
Proof.
  intros host. split_and!.
  - unfold HistoryScreen.organizeHistory. rewrite truthy_trim_toLowerCaseASCII.
    unfold HistoryScreen.matches. cbn [Js.toLowerCase host].
    by rewrite toLowerCaseASCII_idemp.
  - unfold HistoryScreen.matches. cbn. by rewrite !toLowerCaseASCII_idemp.
  - unfold BookmarksScreen.filteredBookmarks, BookmarksScreen.matches.
    cbn [BookmarksScreen.searchQuery BookmarksScreen.bookmarks Js.toLowerCase host].
    by rewrite truthy_trim_toLowerCaseASCII, toLowerCaseASCII_idemp.
Qed.

Section TrimmedStrings.
Import Js BrowserScreen.

(** Texts of ASCII without white space: [trim] leaves them alone. *)

Lemma strip_solid c r : solid_byte c = true → strip (String c r) = None.
Proof.
  unfold solid_byte. intros [Hlt Hsp%negb_true_iff]%andb_true_iff.
  apply Nat.ltb_lt in Hlt.
  assert (Hlow : code c < 128) by (unfold code; lia).
  assert (H2 : ∀ b, is_space2 c b = false).
  { intros b. unfold is_space2. low_byte c. all_false. }
  assert (H3 : ∀ b d, is_space3 c b d = false).
  { intros b d. unfold is_space3. low_byte c. all_false. }
  destruct r as [|b [|d r]]; cbn [strip]; by rewrite Hsp, ?H2, ?H3.
Qed.

Lemma trimEnd_solid_byte c r :
  solid_byte c = true → trimEnd (String c r) = String c (trimEnd r).
Proof.
  intros Hc. cbn [trimEnd]. unfold blank.
  by rewrite (trimStart_fixed (String c r)) by by apply strip_solid.
Qed.

Lemma trimEnd_solid_append p t : solid p = true → trimEnd (p +:+ t) = p +:+ trimEnd t.
Proof.
  induction p as [|c p IH]; [done|]. cbn [solid].
  intros [Hc Hp]%andb_true_iff.
  change (String c p +:+ t) with (String c (p +:+ t)).
  change (String c p +:+ trimEnd t) with (String c (p +:+ trimEnd t)).
  rewrite trimEnd_solid_byte by done. by rewrite IH.
Qed.

Lemma trimEnd_solid s : solid s = true → trimEnd s = s.
Proof.
  induction s as [|c s IH]; [done|]. cbn [solid].
  intros [Hc Hs]%andb_true_iff. rewrite trimEnd_solid_byte by done. by rewrite IH.
Qed.

Lemma solid_append p s : solid p = true → solid s = true → solid (p +:+ s) = true.
Proof.
  induction p as [|c p IH]; [done|]. cbn [solid].
  intros [Hc Hp]%andb_true_iff Hs.
  change (String c p +:+ s) with (String c (p +:+ s)). cbn [solid].
  rewrite Hc. by apply IH.
Qed.

Lemma unreserved_solid c : unreserved c = true → solid_byte c = true.
Proof. destruct c as [[] [] [] [] [] [] [] []]; vm_compute; congruence. Qed.

Lemma hex_digits_solid c :
  solid_byte (hex_digit (nat_of_ascii c / 16)) = true ∧
  solid_byte (hex_digit (nat_of_ascii c mod 16)) = true.
Proof. destruct c as [[] [] [] [] [] [] [] []]; vm_compute; done. Qed.

Lemma solid_encodeURIComponent s : solid (encodeURIComponent s) = true.
Proof.
  induction s as [|c s IH]; [done|]. cbn [encodeURIComponent].
  destruct (unreserved c) eqn:Hc; cbn [solid].
  - by rewrite (unreserved_solid c Hc).
  - destruct (hex_digits_solid c) as [-> ->]. by rewrite IH.
Qed.

Lemma encodeURIComponent_nonempty s :
  s ≠ EmptyString → encodeURIComponent s ≠ EmptyString.
Proof. destruct s as [|c s]; [done|]. cbn. by destruct (unreserved c). Qed.

Lemma has_scheme_https s : has_scheme ("https://" +:+ s) = true.
Proof. unfold has_scheme, startsWith. cbn. by destruct s. Qed.

(** A trimmed text with a scheme is what the URL bar navigates to. *)
Lemma target_of_url url :
  trim url = url → url ≠ EmptyString → has_scheme url = true → target url = Some url.
Proof.
  intros Htrim Hne Hscheme. unfold target. rewrite Htrim, Hscheme.
  by destruct url.
Qed.

End TrimmedStrings.

(** X24. Whatever is typed into the URL bar, the URL it navigates to starts
    with [http://] or [https://], and submitting that URL again navigates to
    the same URL; the bar does nothing only for a text that is empty once
    its white space is trimmed. *)
Theorem url_bar_settles_on_a_url (urlInput : string) :
  match BrowserScreen.target urlInput with
  | Some url => BrowserScreen.has_scheme url = true ∧ BrowserScreen.target url = Some url
  | None => Js.trim urlInput = EmptyString
  end.
Proof.
  unfold BrowserScreen.target at 1.
  destruct (Js.trim urlInput) as [|c t] eqn:Htrim; [done|]. rewrite <- Htrim.
  assert (Hne : Js.trim urlInput ≠ EmptyString) by by rewrite Htrim.
  assert (Htruthy : Js.truthy (Js.trim urlInput) = true) by by rewrite Htrim.
  rewrite Htruthy. cbn [negb].
  destruct (BrowserScreen.has_scheme (Js.trim urlInput)) eqn:Hscheme; cbn [negb].
  - split; [done|]. apply target_of_url; [apply trim_trim|done..].
  - destruct (Js.includes (Js.trim urlInput) "." && negb (Js.includes (Js.trim urlInput) " ")).
    + assert (Hs : BrowserScreen.has_scheme ("https://" +:+ Js.trim urlInput) = true)
        by apply has_scheme_https.
      split; [done|]. apply target_of_url; [|done..].
      unfold Js.trim at 1. rewrite trimStart_fixed by by apply strip_solid.
      rewrite (trimEnd_solid_append "https://") by reflexivity.
      unfold Js.trim. by rewrite trimEnd_trimEnd.
    + assert (Hs : BrowserScreen.has_scheme
                     ("https://www.google.com/search?q="
                        +:+ Js.encodeURIComponent (Js.trim urlInput)) = true)
        by apply (has_scheme_https ("www.google.com/search?q=" +:+ _)).
      split; [done|]. apply target_of_url; [|done..].
      unfold Js.trim at 1. rewrite trimStart_fixed by by apply strip_solid.
      apply trimEnd_solid, solid_append; [reflexivity|apply solid_encodeURIComponent].
Qed.

(** ** The bookmark button and the settings form *)

Section Buttons.
Import Js.

Lemma orUntitled_nonempty answer : BrowserActions.orUntitled answer ≠ EmptyString.
Proof. destruct answer as [[|c s]|]; done. Qed.

Lemma edited_covers (s : gmap string Value) edits :
  dom s ⊆ dom (SettingsScreen.edited s edits).
Proof.
  unfold SettingsScreen.edited.
  assert (Hgen : ∀ l, dom s ⊆ dom l →
            dom s ⊆ dom (foldl (fun prev e => SettingsScreen.handleSettingChange e.1 e.2 prev)
                               l edits)).
  { induction edits as [|e edits IH]; intros l Hl; [done|]. cbn. apply IH.
    unfold SettingsScreen.handleSettingChange. rewrite dom_insert.
    by apply union_subseteq_r'. }
  by apply Hgen.
Qed.

End Buttons.

(** X25. The alert of the bookmark button tells what happened.  Either it
    says [Bookmarked]: then one bookmark for the current URL was appended,
    its title is not empty, and the record is first in the activity log.  Or
    it says [Error]: then the file and the device are what they were.  For a
    page that is bookmarked already it says [Error]. *)
Theorem handleBookmark_alert_tells_the_outcome (activityLog : list ActivityLog.t)
    (today : Z) (now : Js.Date) (pageTitle : Result (option string))
    (currentUrl : string) (a : BrowserActions.App) :
  let a' := BrowserActions.handleBookmark activityLog today now pageTitle currentUrl a in
  let before := Database.file (BrowserActions.database a) in
  let after_ := Database.file (BrowserActions.database a') in
  ((BrowserActions.alerts a'
    = (BrowserActions.alerts a
       ++ [("Bookmarked", "Page added to bookmarks successfully")])%list ∧
    (∃ title, title ≠ EmptyString ∧
       Database.bookmarks after_
       = (Database.bookmarks before
          ++ [BookmarkItem.mk (Database.bookmarks_seq before + 1) currentUrl title today])%list) ∧
    head (Storage.activityLog (BrowserActions.device a'))
    = Some (ActivityLog.mk (pretty (Js.getTime now)) (Js.toISOString now) "BOOKMARK"
              ("User bookmarked: " +:+ currentUrl) None))
   ∨
   (BrowserActions.alerts a'
    = (BrowserActions.alerts a ++ [("Error", "Failed to add bookmark")])%list ∧
    after_ = before ∧
    BrowserActions.device a' = BrowserActions.device a)) ∧
  (currentUrl ∈ BookmarkItem.url <$> Database.bookmarks before →
   BrowserActions.alerts a'
   = (BrowserActions.alerts a ++ [("Error", "Failed to add bookmark")])%list).
Proof.
  intros a' before after_. subst a' before after_.
  unfold BrowserActions.handleBookmark.
  destruct pageTitle as [answer|e]; [|split; [by right|done]].
  pose proof (addBookmark_cases today currentUrl (BrowserActions.orUntitled answer)
                (BrowserActions.database a)) as Hcases.
  unfold result, after in Hcases.
  destruct (Database.addBookmark today currentUrl (BrowserActions.orUntitled answer)
              (BrowserActions.database a)) as [[[]|e] d] eqn:Hadd; cbn [fst snd] in Hcases.
  - destruct Hcases as [(_ & _ & Hnone & Hfile)|(e & He & _)]; [|done].
    cbn [BrowserActions.alerts BrowserActions.database BrowserActions.device].
    split.
    + left. split; [done|]. split.
      * exists (BrowserActions.orUntitled answer).
        split; [apply orUntitled_nonempty|]. by rewrite Hfile.
      * destruct (logActivity_spec activityLog now "BOOKMARK"
                    ("User bookmarked: " +:+ currentUrl) None (BrowserActions.device a))
          as (w' & ev & log' & E & _ & _ & Hhead & _ & Hlog & _).
        unfold after. rewrite E. cbn [snd]. by rewrite Hlog.
    + intros Hin. by apply not_bookmarked in Hnone.
  - destruct Hcases as [(Hok & _)|(e' & _ & Hfile)]; [done|].
    cbn [BrowserActions.alerts BrowserActions.database BrowserActions.device].
    split; [by right|done].
Qed.

(** X26. The save button of the settings form publishes the form.  Starting
    from the settings and after any changes to the form, when the device
    takes the write the alert says [Settings Saved] and the settings and the
    stored settings are exactly the form; when the device rejects it the
    alert says [Error] and the settings and the storage are what they were.
    The function itself never throws. *)
Theorem handleSaveSettings_publishes_the_form (w : Storage.World)
    (edits : list (string * Js.Value)) :
  let form := SettingsScreen.edited (Storage.settings w) edits in
  let save := SettingsScreen.handleSaveSettings (Storage.settings w) form in
  match Storage.faults w with
  | Some _ :: _ =>
      result save w = Ok ("Error", "Failed to save settings") ∧
      Storage.settings (after save w) = Storage.settings w ∧
      Storage.storage (after save w) = Storage.storage w
  | _ =>
      result save w = Ok ("Settings Saved", "Your preferences have been updated successfully") ∧
      Storage.settings (after save w) = form ∧
      Storage.storage (after save w) !! Settings.SETTINGS_KEY
        = Some (Storage.Serialized (Js.Obj form))
  end.
Proof.
  intros form save. subst save.
  assert (Hform : Js.spread (Storage.settings w) form = form)
    by apply spread_covered, edited_covers.
  unfold SettingsScreen.handleSaveSettings, Settings.updateSettings,
    Settings.saveSettingsToStorage, Storage.setItem, Storage.setSettings,
    Storage.console_error. unfold_async. rewrite Hform. clear Hform.
  generalize form. intros f.
  destruct w as [st fs c tr s l al mf]. cbn [Storage.faults Storage.storage Storage.settings].
  destruct fs as [|[m|] fs]; cbn; [|done|]; by rewrite lookup_insert_eq.
Qed.

(** ** The lists of bookmarks and of history, and their delete buttons *)

Section ListScreens.
Import Database.

(** How a delete and the reload after it go, in a row. *)
Lemma delete_then_select {A} (stmt : SQLiteDatabase → SQLiteDatabase)
    (q : SQLiteDatabase → list A) (label label' : string) w :
  let delete := (let! w := get in
                 if negb (db w) then throw not_initialized else
                 try_catch (runAsync stmt)
                   (fun error => console_error label error;; throw error))%async in
  let select := (let! w := get in
                 if negb (db w) then ret [] else
                 try_catch (getAllAsync q)
                   (fun error => console_error label' error;; ret []))%async in
  (∃ e, result delete w = Throw e ∧ file (after delete w) = file w) ∨
  (result delete w = Ok tt ∧ file (after delete w) = stmt (file w) ∧
   file (after select (after delete w)) = stmt (file w) ∧
   ∃ rows, result select (after delete w) = Ok rows ∧
           (rows = [] ∨ rows = q (stmt (file w)))).
Proof.
  destruct w as [d f fs c]. destruct d; [|left; by eexists].
  destruct fs as [|[e|] [|[e2|] fs]]; cbn;
    first [left; by eexists | right; split_and!; [done..|eexists; split; [done|]; auto]].
Qed.

Lemma elem_of_section name rows sec :
  sec ∈ HistoryScreen.section name rows → HistoryScreen.data sec = rows.
Proof.
  unfold HistoryScreen.section. destruct (0 <? length rows)%nat.
  - by intros ->%list_elem_of_singleton.
  - by intros ?%elem_of_nil.
Qed.

(** A row that a section shows is a row of the list the screen holds. *)
Lemma shown_rows_are_listed host now history q sec r :
  sec ∈ HistoryScreen.organizeHistory host now history q →
  r ∈ HistoryScreen.data sec → r ∈ history.
Proof.
  unfold HistoryScreen.organizeHistory. rewrite foldl_push.
  cbn [HistoryScreen.todayItems HistoryScreen.yesterdayItems
       HistoryScreen.thisWeekItems HistoryScreen.olderItems app].
  set (rows := if Js.truthy (Js.trim q) then _ else _).
  assert (Hrows : ∀ x, x ∈ rows → x ∈ history).
  { subst rows. intros x. destruct (Js.truthy (Js.trim q)); [|done].
    by intros [_ ?]%list_elem_of_filter. }
  rewrite !elem_of_app.
  intros [Hs|[Hs|[Hs|Hs]]] Hr; apply elem_of_section in Hs; rewrite Hs in Hr;
    apply list_elem_of_filter in Hr as [_ Hr]; by apply Hrows.
Qed.

End ListScreens.

(** X27. After a confirmed delete on the bookmarks screen, either the alert
    says [Error], and the list and the file are what they were, or there is
    no alert, the bookmark is gone from the file, and the screen does not
    show it, whatever the search text: what it shows are bookmarks of the
    file, newest first, or nothing at all when the driver rejects the
    reload.  Pressing [Cancel] changes nothing. *)
Theorem deleted_bookmark_is_not_shown (host : Js.Host) (id : Z)
    (s : BookmarksScreen.Screen) :
  let s' := BookmarksScreen.handleDeleteBookmark id Alert.Confirm s in
  let before := Database.file (BookmarksScreen.store s) in
  BookmarksScreen.handleDeleteBookmark id Alert.Cancel s = s ∧
  ((BookmarksScreen.alerts s'
    = (BookmarksScreen.alerts s ++ [("Error", "Failed to delete bookmark")])%list ∧
    BookmarksScreen.bookmarks s' = BookmarksScreen.bookmarks s ∧
    Database.file (BookmarksScreen.store s') = before)
   ∨
   (BookmarksScreen.alerts s' = BookmarksScreen.alerts s ∧
    Database.file (BookmarksScreen.store s') = Database.delete_bookmark id before ∧
    StronglySorted (desc BookmarkItem.created_at) (BookmarksScreen.bookmarks s') ∧
    ∀ b, b ∈ BookmarksScreen.filteredBookmarks host s' →
         BookmarkItem.id b ≠ id ∧ b ∈ Database.bookmarks before)).
Proof.
  intros s' before. split; [done|]. subst s' before.
  destruct s as [w bm q al].
  pose proof (delete_then_select (Database.delete_bookmark id) Database.select_bookmarks
                "Error removing bookmark:" "Error getting bookmarks:" w) as Hcases.
  cbv zeta in Hcases.
  fold (Database.removeBookmark id) in Hcases. fold Database.getBookmarks in Hcases.
  unfold BookmarksScreen.handleDeleteBookmark, BookmarksScreen.loadBookmarks.
  cbn [BookmarksScreen.store BookmarksScreen.bookmarks BookmarksScreen.alerts
       BookmarksScreen.searchQuery].
  unfold result, after in Hcases.
  destruct (Database.removeBookmark id w) as [[[]|e] w1]; cbn [fst snd] in Hcases.
  - destruct Hcases as [(e & He & _)|(_ & Hfile & Hfile' & rows & Hres & Hrows)]; [done|].
    destruct (Database.getBookmarks w1) as [[data|e] w2]; cbn [fst snd] in *; [|done].
    injection Hres as ->. right.
    cbn [BookmarksScreen.store BookmarksScreen.bookmarks BookmarksScreen.alerts].
    split_and!; [done..| |].
    + destruct Hrows as [->| ->]; [constructor|apply order_by_desc_sorted].
    + intros b Hb.
      assert (Hin : b ∈ rows).
      { unfold BookmarksScreen.filteredBookmarks in Hb.
        cbn [BookmarksScreen.bookmarks BookmarksScreen.searchQuery] in Hb.
        destruct (Js.truthy (Js.trim q)); [|done].
        by apply list_elem_of_filter in Hb as [_ Hb]. }
      destruct Hrows as [->| ->]; [by apply elem_of_nil in Hin|].
      apply elem_of_order_by_desc in Hin. cbn in Hin.
      apply list_elem_of_filter in Hin. tauto.
  - destruct Hcases as [(e' & _ & Hfile)|(Hok & _)]; [|done].
    left. by cbn.
Qed.

(** X28. After a confirmed [Clear All] on the history screen, either the
    alert says [Error], and the list and the file are what they were, or
    there is no alert, the history in the file is empty, and the screen
    shows no section, whatever the driver does with the reload.  After a
    confirmed delete of one row that ends without alert, no section shows a
    row with that id.  Pressing [Cancel] changes nothing. *)
Theorem cleared_history_is_not_shown (host : Js.Host) (id now : Z)
    (s : HistoryButtons.Screen) :
  let cleared := HistoryButtons.handleClearAllHistory Alert.Confirm s in
  let deleted := HistoryButtons.handleDeleteHistoryItem id Alert.Confirm s in
  let before := Database.file (HistoryButtons.store s) in
  HistoryButtons.handleClearAllHistory Alert.Cancel s = s ∧
  HistoryButtons.handleDeleteHistoryItem id Alert.Cancel s = s ∧
  ((HistoryButtons.alerts cleared
    = (HistoryButtons.alerts s ++ [("Error", "Failed to clear history")])%list ∧
    HistoryButtons.history cleared = HistoryButtons.history s ∧
    Database.file (HistoryButtons.store cleared) = before)
   ∨
   (HistoryButtons.alerts cleared = HistoryButtons.alerts s ∧
    Database.history (Database.file (HistoryButtons.store cleared)) = [] ∧
    HistoryButtons.sections host now cleared = [])) ∧
  ((HistoryButtons.alerts deleted
    = (HistoryButtons.alerts s ++ [("Error", "Failed to delete history item")])%list ∧
    HistoryButtons.history deleted = HistoryButtons.history s ∧
    Database.file (HistoryButtons.store deleted) = before)
   ∨
   (HistoryButtons.alerts deleted = HistoryButtons.alerts s ∧
    Database.file (HistoryButtons.store deleted) = Database.delete_history_id id before ∧
    ∀ sec r, sec ∈ HistoryButtons.sections host now deleted →
             r ∈ HistoryScreen.data sec → HistoryItem.id r ≠ id)).
Proof.
  intros cleared deleted before. split; [done|]. split; [done|].
  subst cleared deleted before. destruct s as [w h q al]. split.
  - pose proof (delete_then_select Database.delete_history_all Database.select_history
                  "Error clearing history:" "Error getting history:" w) as Hcases.
    cbv zeta in Hcases.
    fold Database.clearHistory in Hcases. fold Database.getHistory in Hcases.
    unfold HistoryButtons.handleClearAllHistory, HistoryButtons.loadHistory.
    cbn [HistoryButtons.store HistoryButtons.history HistoryButtons.alerts
         HistoryButtons.searchQuery].
    unfold result, after in Hcases.
    destruct (Database.clearHistory w) as [[[]|e] w1]; cbn [fst snd] in Hcases.
    + destruct Hcases as [(e & He & _)|(_ & Hfile & Hfile' & rows & Hres & Hrows)]; [done|].
      destruct (Database.getHistory w1) as [[data|e] w2]; cbn [fst snd] in *; [|done].
      injection Hres as ->. right.
      cbn [HistoryButtons.store HistoryButtons.history HistoryButtons.alerts].
      assert (Hnone : rows = []) by (by destruct Hrows as [->| ->]).
      subst rows. split_and!; [done|by rewrite Hfile'|].
      unfold HistoryButtons.sections, HistoryScreen.organizeHistory.
      cbn [HistoryButtons.history HistoryButtons.searchQuery].
      by destruct (Js.truthy (Js.trim q)).
    + destruct Hcases as [(e' & _ & Hfile)|(Hok & _)]; [|done]. left. by cbn.
  - pose proof (delete_then_select (Database.delete_history_id id) Database.select_history
                  "Error removing history item:" "Error getting history:" w) as Hcases.
    cbv zeta in Hcases.
    fold (Database.removeHistoryItem id) in Hcases. fold Database.getHistory in Hcases.
    unfold HistoryButtons.handleDeleteHistoryItem, HistoryButtons.loadHistory.
    cbn [HistoryButtons.store HistoryButtons.history HistoryButtons.alerts
         HistoryButtons.searchQuery].
    unfold result, after in Hcases.
    destruct (Database.removeHistoryItem id w) as [[[]|e] w1]; cbn [fst snd] in Hcases.
    + destruct Hcases as [(e & He & _)|(_ & Hfile & Hfile' & rows & Hres & Hrows)]; [done|].
      destruct (Database.getHistory w1) as [[data|e] w2]; cbn [fst snd] in *; [|done].
      injection Hres as ->. right.
      cbn [HistoryButtons.store HistoryButtons.history HistoryButtons.alerts].
      split_and!; [done..|].
      intros sec r Hsec Hr.
      assert (Hin : r ∈ rows) by (by eapply shown_rows_are_listed).
      destruct Hrows as [->| ->]; [by apply elem_of_nil in Hin|].
      unfold Database.select_history in Hin. apply (subseteq_take 100) in Hin.
      apply elem_of_order_by_desc in Hin. cbn in Hin.
      apply list_elem_of_filter in Hin. tauto.
    + destruct Hcases as [(e' & _ & Hfile)|(Hok & _)]; [|done]. left. by cbn.
Qed.
